(** * The ticker designer's schema document model

    A shallow embedding of [profit/widgets/tickerdesigner.py]: the schema
    item classes ([SchemaItem], [CallableItem], [TickerItem], [FieldItem],
    [IndexItem]) and the [TickerDesigner] methods that edit, save and load
    the schema tree.

    Two views of the item tree are used.
    - The _value_ view ([Module Schema]): items as finite trees.  It is
      enough for [toSchema] / [fromSchema] / [readSchema], which only read
      an existing tree or build a fresh one.
    - The _object_ view ([Module Designer]): items live in a store and are
      named by references, as Python objects are; rows, parents, the
      [clipItem] and [editItem] of the window are references.  The editing
      actions (cut, copy, paste, delete, move, rename) are stated there. *)

From Stdlib Require Import ZArith Lia Bool Ascii String.
From stdpp Require Import base tactics option list strings pretty.

Local Open Scope string_scope.
Local Open Scope list_scope.
Local Open Scope Z_scope.

(** ** Python values *)

(** A Python [float], kept as its IEEE-754 bit pattern: the designer only
    stores and copies floats. *)
Record pyfloat := PyFloatBits { float_bits : Z }.

Definition float_zero : pyfloat := PyFloatBits 0.

(** The values that occur in a schema: what [cPickle] loads. A [dict] is an
    association list whose keys are strings; a well-formed one has no key
    twice ([dict_wf]). *)
#[local] Set Warnings "-register-all".
Inductive pyobj : Type :=
| PyInt (z : Z)
| PyFloat (f : pyfloat)
| PyStr (s : string)
| PyList (l : list pyobj)
| PyDict (d : list (string * pyobj)).

Abbreviation dict := (list (string * pyobj)).

(** The exceptions raised on the paths modelled here. *)
Inductive exn : Type :=
| KeyError (key : string)
| TypeError (msg : string)
| AttributeError (msg : string)
| RuntimeError (msg : string).

Inductive result (A : Type) : Type :=
| Ok (a : A)
| Raise (e : exn).
Arguments Ok {A} a.
Arguments Raise {A} e.

(** Sequencing: an exception ends the computation. *)
#[global] Instance result_bind : MBind result := λ A B k m,
  match m with
  | Ok a => k a
  | Raise e => Raise e
  end.

#[global] Instance result_ret : MRet result := λ A a, Ok a.

(** [d.get(key)]: the first binding of [key]. *)
Fixpoint dict_get (key : string) (d : dict) : option pyobj :=
  match d with
  | [] => None
  | (k, v) :: d' => if String.eqb k key then Some v else dict_get key d'
  end.

(** [d[key]], raising [KeyError]. *)
Definition dict_getitem (key : string) (d : dict) : result pyobj :=
  match dict_get key d with
  | Some v => Ok v
  | None => Raise (KeyError key)
  end.

(** [d.get(key, default)]. *)
Definition dict_get_default (key : string) (default : pyobj) (d : dict) : pyobj :=
  match dict_get key d with
  | Some v => v
  | None => default
  end.

(** [d[key] = v]: replaces the binding of [key], or adds one. *)
Fixpoint dict_setitem (key : string) (v : pyobj) (d : dict) : dict :=
  match d with
  | [] => [(key, v)]
  | (k, w) :: d' =>
      if String.eqb k key then (k, v) :: d' else (k, w) :: dict_setitem key v d'
  end.

Definition dict_keys (d : dict) : list string := d.*1.

Definition dict_wf (d : dict) : Prop := NoDup (dict_keys d).

#[global] Instance dict_wf_dec d : Decision (dict_wf d).
Proof. unfold dict_wf. apply _. Defined.

(** A text argument of a [QStandardItem]: PyQt accepts a string only. *)
Definition as_text (v : pyobj) : result string :=
  match v with
  | PyStr s => Ok s
  | _ => Raise (TypeError "argument has unexpected type")
  end.

(** Iterating [for x in v]: over a list. *)
Definition as_list (v : pyobj) : result (list pyobj) :=
  match v with
  | PyList l => Ok l
  | _ => Raise (TypeError "object is not iterable")
  end.

(** The [parameters] of an index are a dict. *)
Definition as_dict (v : pyobj) : result dict :=
  match v with
  | PyDict d => Ok d
  | _ => Raise (TypeError "object is not a mapping")
  end.

(** [for x in d.get(key, [])]: the elements of the list bound to [key], each
    passed to [f]; no binding gives the empty default. *)
Definition for_each_in_get {A} (key : string) (f : pyobj → result A) (d : dict)
  : result (list A) :=
  (fix scan (d : dict) : result (list A) :=
     match d with
     | [] => Ok []
     | (k, v) :: d' =>
         if String.eqb k key then
           match v with
           | PyList l => mapM f l
           | _ => Raise (TypeError "object is not iterable")
           end
         else scan d'
     end) d.

(** ** Python strings *)

(** [s.split(sep)] for a separator of one character. *)
Fixpoint str_split (sep : ascii) (s : string) : list string :=
  match s with
  | EmptyString => [""]
  | String c s' =>
      if Ascii.eqb c sep then "" :: str_split sep s'
      else
        match str_split sep s' with
        | h :: t => String c h :: t
        | [] => [String c ""]
        end
  end.

(** The characters that [strip] removes. *)
Definition is_space (c : ascii) : bool :=
  let n := nat_of_ascii c in
  (n =? 32)%nat || ((9 <=? n)%nat && (n <=? 13)%nat).

Fixpoint lstrip (cs : list ascii) : list ascii :=
  match cs with
  | c :: cs' => if is_space c then lstrip cs' else cs
  | [] => []
  end.

Definition strip (cs : list ascii) : list ascii :=
  rev (lstrip (rev (lstrip cs))).

Definition digit_value (c : ascii) : option Z :=
  let n := nat_of_ascii c in
  if (48 <=? n)%nat && (n <=? 57)%nat then Some (Z.of_nat (n - 48)) else None.

(** The value of a non-empty run of decimal digits. *)
Fixpoint digits_value (acc : Z) (cs : list ascii) : option Z :=
  match cs with
  | [] => Some acc
  | c :: cs' => d ← digit_value c; digits_value (10 * acc + d) cs'
  end.

Definition number_value (cs : list ascii) : option Z :=
  match cs with
  | [] => None
  | _ => digits_value 0 cs
  end.

(** [int(s)] for a string: blanks around, an optional sign, decimal digits;
    [None] is [ValueError]. *)
Definition py_int (s : string) : option Z :=
  match strip (list_ascii_of_string s) with
  | "+"%char :: cs => number_value cs
  | "-"%char :: cs => Z.opp <$> number_value cs
  | cs => number_value cs
  end.

(** [str(n)] and the [%s] of an integer. *)
Definition str_of_int (n : Z) : string := pretty n.

(** [s.startswith(prefix)]. *)
Definition startswith (prefix s : string) : bool := String.prefix prefix s.

Definition ascii_lower (c : ascii) : ascii :=
  let n := nat_of_ascii c in
  if (65 <=? n)%nat && (n <=? 90)%nat then ascii_of_nat (n + 32) else c.

Fixpoint str_lower (s : string) : string :=
  match s with
  | EmptyString => EmptyString
  | String c s' => String (ascii_lower c) (str_lower s')
  end.

(** Qt's [MatchStartsWith] without [MatchCaseSensitive]: a prefix test that
    ignores case. *)
Definition starts_with_ignoring_case (prefix s : string) : bool :=
  String.prefix (str_lower prefix) (str_lower s).

(** [sep.join(parts)] for a separator of one character. *)
Fixpoint str_join (sep : ascii) (parts : list string) : string :=
  match parts with
  | [] => ""
  | [p] => p
  | p :: ps => String.append p (String sep (str_join sep ps))
  end.

(** The number of occurrences of [c] in [s]. *)
Fixpoint str_count (c : ascii) (s : string) : nat :=
  match s with
  | EmptyString => 0
  | String c' s' => (if Ascii.eqb c' c then 1 else 0) + str_count c s'
  end.

(** ** Item attributes *)

(** The foreground brush of an item: Qt's default, the palette's text brush
    set by [resetForeground], blue for a copied item, red for a cut one. *)
Inductive brush : Type := BrushDefault | BrushPaletteText | BrushBlue | BrushRed.

Record CallableAttrs := MkCallable {
  name : string;
  threadInterval : pyobj;
  scriptName : pyobj;
  syspathName : pyobj;
  execType : pyobj;
  srcType : pyobj;
  messageTypes : pyobj;
}.

Record TickerAttrs := MkTicker {
  tickerId : pyobj;
  symbol : string;
  exchange : pyobj;
  secType : pyobj;
  expiry : pyobj;
  right : pyobj;
  strike : pyobj;
  currency : pyobj;
}.

(** The class of an item with the attributes its constructor sets. *)
Inductive ItemClass : Type :=
| CallableItem (c : CallableAttrs)
| TickerItem (t : TickerAttrs)
| FieldItem (id : pyobj)
| IndexItem (typeName : string) (parameters : dict).

(** What [SchemaItem.__init__] sets on every item, with the text and the
    foreground of the underlying [QStandardItem]. *)
Record SchemaItem := MkItem {
  text : string;
  cls : ItemClass;
  cutSource : bool;
  copySource : bool;
  foreground : brush;
}.

(** [SchemaItem.__init__(self, text)] followed by the subclass constructor. *)
Definition new_item (txt : string) (c : ItemClass) : SchemaItem :=
  MkItem txt c false false BrushDefault.

Module Schema.

(** An item with its rows, as a value. *)
Inductive item : Type :=
| Node (self : SchemaItem) (rows : list item).

Definition self_of (it : item) : SchemaItem := let 'Node s _ := it in s.

(** [toSchema], dispatched on the class of the item. *)
Fixpoint toSchema (it : item) : pyobj :=
  let 'Node s rows := it in
  match cls s with
  | CallableItem c =>
      PyDict [("name", PyStr (name c));
              ("threadInterval", threadInterval c);
              ("scriptName", scriptName c);
              ("syspathName", syspathName c);
              ("execType", execType c);
              ("srcType", srcType c);
              ("messageTypes", messageTypes c)]
  | TickerItem t =>
      PyDict [("tickerId", tickerId t);
              ("symbol", PyStr (symbol t));
              ("exchange", exchange t);
              ("secType", secType t);
              ("expiry", expiry t);
              ("right", right t);
              ("strike", strike t);
              ("currency", currency t);
              ("fields", PyList (map toSchema rows))]
  | FieldItem id =>
      PyDict [("name", PyStr (text s));
              ("id", id);
              ("indexes", PyList (map toSchema rows))]
  | IndexItem typeName parameters =>
      PyDict [("typeName", PyStr typeName);
              ("indexes", PyList (map toSchema rows));
              ("parameters", PyDict parameters);
              ("name", PyStr (text s))]
  end.

(** [IndexItem.fromSchema]. *)
Fixpoint IndexItem_fromSchema (data : pyobj) : result item :=
  match data with
  | PyDict d =>
      typeName ← (v ← dict_getitem "typeName" d ; as_text v) ;
      txt ← as_text (dict_get_default "name" (PyStr typeName) d) ;
      parameters ← as_dict (dict_get_default "parameters" (PyDict []) d) ;
      rows ← for_each_in_get "indexes" IndexItem_fromSchema d ;
      Ok (Node (new_item txt (IndexItem typeName parameters)) rows)
  | _ => Raise (TypeError "indices must be integers")
  end.

(** [FieldItem.fromSchema]; a new field has [id = -1] until it is set. *)
Definition FieldItem_fromSchema (data : pyobj) : result item :=
  match data with
  | PyDict d =>
      txt ← (v ← dict_getitem "name" d; as_text v);
      id ← dict_getitem "id" d;
      rows ← for_each_in_get "indexes" IndexItem_fromSchema d;
      Ok (Node (new_item txt (FieldItem id)) rows)
  | _ => Raise (TypeError "indices must be integers")
  end.

(** [TickerItem.fromSchema]: the constructor call, then one row per entry of
    [fields]. *)
Definition TickerItem_fromSchema (d : dict) : result item :=
  tickerId ← dict_getitem "tickerId" d;
  symbol ← (v ← dict_getitem "symbol" d; as_text v);
  let t := MkTicker tickerId symbol
             (dict_get_default "exchange" (PyStr "") d)
             (dict_get_default "secType" (PyStr "") d)
             (dict_get_default "expiry" (PyStr "") d)
             (dict_get_default "right" (PyStr "") d)
             (dict_get_default "strike" (PyFloat float_zero) d)
             (dict_get_default "currency" (PyStr "") d) in
  rows ← for_each_in_get "fields" FieldItem_fromSchema d;
  Ok (Node (new_item symbol (TickerItem t)) rows).

(** [CallableItem.fromSchema]. *)
Definition CallableItem_fromSchema (d : dict) : result item :=
  name ← as_text (dict_get_default "name" (PyStr "Unknown") d);
  let c := MkCallable name
             (dict_get_default "threadInterval" (PyInt 0) d)
             (dict_get_default "scriptName" (PyStr "") d)
             (dict_get_default "syspathName" (PyStr "") d)
             (dict_get_default "execType" (PyStr "") d)
             (dict_get_default "srcType" (PyStr "") d)
             (dict_get_default "messageTypes" (PyList []) d) in
  Ok (Node (new_item name (CallableItem c)) []).

(** The part of the designer window that saving and loading touch: the rows
    of the model's invisible root, the schema last read, the file name, and
    the warnings shown to the user. *)
Record window := MkWindow {
  model : list item;
  savedSchema : option pyobj;
  schemaFile : option string;
  warnings : list string;
}.

Definition set_model (rows : list item) (w : window) : window :=
  MkWindow rows (savedSchema w) (schemaFile w) (warnings w).

(** A method that may raise: the result or the exception, with the window
    as the method left it. *)
Definition method (A : Type) : Type := window → result A * window.

(** [addCallableItem(kwds)]: the item is appended once it is built. *)
Definition addCallableItem (kwds : dict) : method item := λ w,
  match CallableItem_fromSchema kwds with
  | Ok it => (Ok it, set_model (model w ++ [it]) w)
  | Raise e => (Raise e, w)
  end.

(** [addTickerItem(kwds)]. *)
Definition addTickerItem (kwds : dict) : method item := λ w,
  match TickerItem_fromSchema kwds with
  | Ok it => (Ok it, set_model (model w ++ [it]) w)
  | Raise e => (Raise e, w)
  end.

(** [addSchemaItem(kwds)]. Each [try] encloses the lookup of the
    discriminating key and the call that builds the item, and passes on a
    [KeyError] from either; the last statement calls [NotImplemented], which
    is not callable. *)
Definition addSchemaItem (kwds : dict) : method item := λ w,
  let fallthrough2 :=
    (Raise (TypeError "'NotImplementedType' object is not callable"), w) in
  let fallthrough1 :=
    match dict_getitem "tickerId" kwds with
    | Ok hasTickerId =>
        match addTickerItem kwds w with
        | (Raise (KeyError _), _) => fallthrough2
        | r => r
        end
    | Raise (KeyError _) => fallthrough2
    | Raise e => (Raise e, w)
    end in
  match dict_getitem "execType" kwds with
  | Ok hasExec =>
      match addCallableItem kwds w with
      | (Raise (KeyError _), _) => fallthrough1
      | r => r
      end
  | Raise (KeyError _) => fallthrough1
  | Raise e => (Raise e, w)
  end.

(** [schema()]: one entry per row of the root, in row order. *)
Definition schema (w : window) : pyobj := PyList (map toSchema (model w)).

(** [resetSchema()]. *)
Definition resetSchema (w : window) : window :=
  MkWindow [] (savedSchema w) None (warnings w).

(** The loop of [readSchema]: [self.addSchemaItem(data)] for each entry,
    which must be a dict to be passed as keyword arguments. *)
Fixpoint readSchema_loop (entries : list pyobj) : method unit := λ w,
  match entries with
  | [] => (Ok (), w)
  | data :: rest =>
      match data with
      | PyDict kwds =>
          match addSchemaItem kwds w with
          | (Ok _, w') => readSchema_loop rest w'
          | (Raise e, w') => (Raise e, w')
          end
      | _ => (Raise (TypeError "argument after ** must be a mapping"), w)
      end
  end.

(** The [try] block of [readSchema]. *)
Definition readSchema_try (schema : pyobj) : method unit := λ w,
  match schema with
  | PyList entries => readSchema_loop entries w
  | _ => (Raise (TypeError "object is not iterable"), w)
  end.

(** [readSchema(schema, filename)]: any exception is answered by a warning
    and [resetSchema]. *)
Definition readSchema (schema : pyobj) (filename : string) (w : window) : window :=
  match readSchema_try schema w with
  | (Raise ex, w') =>
      resetSchema
        (MkWindow (model w') (savedSchema w') (schemaFile w')
                  (warnings w' ++ ["Unable to read schema."]))
  | (Ok _, w') =>
      MkWindow (model w') (Some schema) (Some filename) (warnings w')
  end.

(** *** Inserting at the root *)

(** [TickerDesigner.defaultText]. *)
Definition defaultText : string := "Unknown".

(** [getattr(i, 'tickerId', 0)]: the attribute of a ticker, 0 for an item
    of another class. *)
Definition getattr_tickerId (it : item) : pyobj :=
  match cls (self_of it) with
  | TickerItem t => tickerId t
  | _ => PyInt 0
  end.

(** [max] of a non-empty list of integers. Python 2 also orders values of
    other types, by rules that are not modelled: [None] then. *)
Fixpoint max_ints (vs : list pyobj) : option Z :=
  match vs with
  | [] => None
  | [PyInt z] => Some z
  | PyInt z :: vs' => Z.max z <$> max_ints vs'
  | _ => None
  end.

(** [on_actionInsertTicker_triggered]: the new ticker gets one more than
    the greatest ticker id at the root, 1 at an empty root. The modified
    signal is not part of this view of the window. *)
Definition on_actionInsertTicker_triggered (w : window) : option window :=
  tickerId ←
    match model w with
    | [] => Some 1
    | items => Z.add 1 <$> max_ints (map getattr_tickerId items)
    end;
  Some (addTickerItem [("tickerId", PyInt tickerId); ("symbol", PyStr defaultText)] w).2.

(** [on_actionInsertCallable_triggered]. *)
Definition on_actionInsertCallable_triggered (w : window) : window :=
  (addCallableItem [("name", PyStr defaultText)] w).2.

(** The ticker that [on_actionInsertTicker_triggered] appends. *)
Definition new_ticker (tickerId : Z) : item :=
  Node (new_item defaultText
          (TickerItem (MkTicker (PyInt tickerId) defaultText (PyStr "") (PyStr "")
                         (PyStr "") (PyStr "") (PyFloat float_zero) (PyStr ""))))
       [].

Definition is_int (v : pyobj) : bool :=
  match v with PyInt _ => true | _ => false end.

(** The items below [it] in document order: the item of each row, followed
    by the items below it. *)
Fixpoint descendants (it : item) : list SchemaItem :=
  let 'Node _ rows := it in
  List.flat_map (λ r, self_of r :: descendants r) rows.

(** *** A sample tree *)

Definition blank : window := MkWindow [] None None [].

Definition sample_model : list item :=
  [ Node (MkItem "job"
            (CallableItem (MkCallable "job" (PyInt 5) (PyStr "run.py") (PyStr "")
                             (PyStr "thread") (PyStr "script")
                             (PyList [PyStr "TickPrice"])))
            false false BrushDefault) [];
    Node (MkItem "AAPL"
            (TickerItem (MkTicker (PyInt 1) "AAPL" (PyStr "SMART") (PyStr "STK")
                           (PyStr "") (PyStr "") (PyFloat float_zero)
                           (PyStr "USD")))
            false false BrushDefault)
      [ Node (MkItem "bid" (FieldItem (PyInt 1)) false true BrushBlue)
          [ Node (new_item "X" (IndexItem "SMA" [("periods", PyInt 9)]))
              [ Node (new_item "V" (IndexItem "EMA" [("in", PyStr "U")])) [] ];
            Node (new_item "KAMA-3"
                    (IndexItem "KAMA" [("in", PyStr "X"); ("n", PyInt 3)])) [] ];
        Node (new_item "ask" (FieldItem (PyInt 2))) [] ] ].

Definition sample : window := MkWindow sample_model None None [].




(** The class tests of the legality rules, on values. *)
Definition is_index (s : SchemaItem) : bool :=
  match cls s with IndexItem _ _ => true | _ => false end.

Definition is_field (s : SchemaItem) : bool :=
  match cls s with FieldItem _ => true | _ => false end.

(** Index rows all the way down. *)
Fixpoint index_tree (it : item) : bool :=
  let 'Node s rows := it in is_index s && forallb index_tree rows.

Definition field_tree (it : item) : bool :=
  let 'Node s rows := it in is_field s && forallb index_tree rows.

(** What the designer can build at the root: a callable without rows whose
    text is its [name], or a ticker whose text is its [symbol] and whose
    rows are fields over indexes. Both texts are set together with the
    attribute, by the constructors and by the two edit handlers. *)
Definition constructible (it : item) : bool :=
  let 'Node s rows := it in
  match cls s with
  | CallableItem c =>
      bool_decide (text s = name c) && bool_decide (rows = [])
  | TickerItem t =>
      bool_decide (text s = symbol t) && forallb field_tree rows
  | _ => false
  end.

(** Forgetting the clip markers: the flags and the foreground of every
    item are those of a new item. *)
Definition unmark (s : SchemaItem) : SchemaItem := new_item (text s) (cls s).

Fixpoint unmarked (it : item) : item :=
  let 'Node s rows := it in Node (unmark s) (map unmarked rows).

End Schema.

(* ===================================================================== *)
(** * The object view: items in a store *)

Module Designer.

(** A reference to an item object; the store is indexed by references and
    only grows (an item removed from the tree stays in the store, as its
    Python wrapper does). *)
Abbreviation ref := nat.

(** What holds rows: the model's invisible root, or an item. *)
Inductive holder : Type := InvisibleRoot | Item (r : ref).

#[global] Instance holder_eq_dec : EqDecision holder.
Proof. solve_decision. Defined.

(** An item object. [rows] is column 0 of the item's children: a row whose
    child was taken holds no item. [parent] is the holder the item is
    attached to; for a top-level item that is the invisible root, which
    the public [parent()] does not show. *)
Record object := MkObject {
  self : SchemaItem;
  rows : list (option ref);
  parent : option holder;
}.

Record model := MkModel {
  objects : list object;
  root_rows : list (option ref);
}.

Definition get_rows (h : holder) (m : model) : list (option ref) :=
  match h with
  | InvisibleRoot => root_rows m
  | Item r => from_option rows [] (objects m !! r)
  end.

Definition update_object (r : ref) (f : object → object) (m : model) : model :=
  MkModel (alter f r (objects m)) (root_rows m).

Definition set_rows (h : holder) (l : list (option ref)) (m : model) : model :=
  match h with
  | InvisibleRoot => MkModel (objects m) l
  | Item r => update_object r (λ o, MkObject (self o) l (parent o)) m
  end.

Definition set_parent (r : ref) (p : option holder) (m : model) : model :=
  update_object r (λ o, MkObject (self o) (rows o) p) m.

Definition update_self (r : ref) (f : SchemaItem → SchemaItem) (m : model) : model :=
  update_object r (λ o, MkObject (f (self o)) (rows o) (parent o)) m.

Definition get_parent (r : ref) (m : model) : option holder :=
  o ← objects m !! r; parent o.

(** [item.parent()]: the parent item; [None] for a top-level or a detached
    item. *)
Definition public_parent (r : ref) (m : model) : option ref :=
  match get_parent r m with
  | Some (Item p) => Some p
  | _ => None
  end.

(** [h.rowCount()]. *)
Definition rowCount (h : holder) (m : model) : Z :=
  Z.of_nat (length (get_rows h m)).

(** [h.child(row, 0)]: no item outside the rows or in an empty row. *)
Definition child (h : holder) (row : Z) (m : model) : option ref :=
  if decide (0 ≤ row) then mjoin (get_rows h m !! Z.to_nat row) else None.

(** [h.takeChild(row, 0)]: the child leaves the row, which stays in place
    empty, and loses its parent. Nothing happens outside the rows. *)
Definition takeChild (h : holder) (row : Z) (m : model) : option ref * model :=
  match child h row m with
  | Some c =>
      (Some c,
       set_parent c None (set_rows h (<[Z.to_nat row := None]> (get_rows h m)) m))
  | None => (None, m)
  end.

(** [h.setChild(row, item)]. An item cannot be its own child and a negative
    row is ignored; the rows grow to hold [row]; an item that still has a
    parent is refused (Qt ignores the duplicate insertion); otherwise the
    row is replaced and the item attached. *)
Definition setChild (h : holder) (row : Z) (item : option ref) (m : model) : model :=
  if decide (Item <$> item = Some h) then m
  else if decide (row < 0) then m
  else
    let l := get_rows h m in
    let l := l ++ replicate (Z.to_nat (row + 1) - length l) None in
    let m1 := set_rows h l m in
    if decide (item = mjoin (l !! Z.to_nat row)) then m1
    else
      match item with
      | Some r =>
          match get_parent r m1 with
          | None =>
              set_parent r (Some h) (set_rows h (<[Z.to_nat row := Some r]> l) m1)
          | Some _ => m1
          end
      | None => set_rows h (<[Z.to_nat row := None]> l) m1
      end.

(** [h.appendRow(item)]: a new last row; as in [setChild], an item that
    still has a parent is not inserted and the new row stays empty. *)
Definition appendRow (h : holder) (r : ref) (m : model) : model :=
  match get_parent r m with
  | None => set_parent r (Some h) (set_rows h (get_rows h m ++ [Some r]) m)
  | Some _ => set_rows h (get_rows h m ++ [None]) m
  end.

(** [model.removeRow(row, index of h)]: the row is removed with what it
    holds. Qt destroys the items of the removed row; the store keeps their
    objects as they were, and the [RuntimeError] that PyQt raises when a
    stale reference to one is used later is not modelled. *)
Definition removeRow (h : holder) (row : Z) (m : model) : model :=
  if decide (0 ≤ row < rowCount h m)
  then set_rows h (delete (Z.to_nat row) (get_rows h m)) m
  else m.

(** A model index: the holder and the row. *)
Definition index : Type := holder * Z.

(** [model.indexFromItem(item)], for an item attached to a holder of the
    tree: the holder and the row where the item sits; invalid ([None]) for
    an item without parent. *)
Definition indexFromItem (r : ref) (m : model) : option index :=
  h ← get_parent r m;
  '(i, _) ← list_find (λ x, x = Some r) (get_rows h m);
  Some (h, Z.of_nat i).

(** [model.itemFromIndex(index)]. *)
Definition itemFromIndex (ix : option index) (m : model) : option ref :=
  '(h, row) ← ix; child h row m.

(** [index.sibling(row, 0)] and [isValid()]: the index of another row of
    the same holder, valid only inside its rows. *)
Definition sibling (row : Z) (ix : option index) (m : model) : option index :=
  '(h, _) ← ix;
  if decide (0 ≤ row < rowCount h m) then Some (h, row) else None.

(** Allocation of a new object without parent or rows. *)
Definition alloc (s : SchemaItem) (m : model) : ref * model :=
  (length (objects m), MkModel (objects m ++ [MkObject s [] None]) (root_rows m)).

(** *** Methods of the item classes *)

(** The Python classes, for [canInsert(types)] and [isinstance]. *)
Inductive ItemType : Type :=
| SchemaItemT | CallableItemT | TickerItemT | FieldItemT | IndexItemT.

#[global] Instance ItemType_eq_dec : EqDecision ItemType.
Proof. solve_decision. Defined.

Definition type_of (s : SchemaItem) : ItemType :=
  match cls s with
  | CallableItem _ => CallableItemT
  | TickerItem _ => TickerItemT
  | FieldItem _ => FieldItemT
  | IndexItem _ _ => IndexItemT
  end.

(** [SchemaItem.rootTypes]. *)
Definition rootTypes : list ItemType := [CallableItemT; TickerItemT].

(** [canInsert(types)], as each class defines or inherits it. The base
    class answers for the root of the tree. *)
Definition canInsert (c : ItemType) (types : list ItemType) : bool :=
  match c with
  | SchemaItemT => existsb (λ t, bool_decide (t ∈ types)) rootTypes
  | CallableItemT => false
  | TickerItemT => bool_decide (FieldItemT ∈ types)
  | FieldItemT => bool_decide (IndexItemT ∈ types)
  | IndexItemT => bool_decide (IndexItemT ∈ types)
  end.

(** [canPaste(item)]: [isinstance] of the clip item, which may be [None]. *)
Definition canPaste (c : ItemType) (item : option ItemType) : bool :=
  match c with
  | TickerItemT => bool_decide (item = Some FieldItemT)
  | FieldItemT | IndexItemT => bool_decide (item = Some IndexItemT)
  | _ => false
  end.

Definition canCopy (c : ItemType) : bool :=
  match c with FieldItemT | IndexItemT => true | _ => false end.

Definition canCut (c : ItemType) : bool :=
  match c with FieldItemT | IndexItemT => true | _ => false end.

Definition canDelete (c : ItemType) : bool := true.

(** [setCopy], [setCut] and [resetForeground]. *)
Definition setCopy (s : SchemaItem) : SchemaItem :=
  MkItem (text s) (cls s) false true BrushBlue.

Definition setCut (s : SchemaItem) : SchemaItem :=
  MkItem (text s) (cls s) true false BrushRed.

Definition resetForeground (s : SchemaItem) : SchemaItem :=
  MkItem (text s) (cls s) (cutSource s) (copySource s) BrushPaletteText.

Definition setText (txt : string) (s : SchemaItem) : SchemaItem :=
  MkItem txt (cls s) (cutSource s) (copySource s) (foreground s).

Definition get_self (r : ref) (m : model) : option SchemaItem :=
  self <$> objects m !! r.

Definition get_type (r : ref) (m : model) : option ItemType :=
  type_of <$> get_self r m.

Definition recursion_error {A} : result A :=
  Raise (RuntimeError "maximum recursion depth exceeded").

Definition none_has_no {A} (attr : string) : result A :=
  Raise (AttributeError attr).

Fixpoint foldM {A S} (f : S → A → result S) (l : list A) (s : S) : result S :=
  match l with
  | [] => Ok s
  | a :: l' => s' ← f s a; foldM f l' s'
  end.

(** [item.immediateChildren]: the child of each row. *)
Definition immediateChildren (r : ref) (m : model) : list (option ref) :=
  get_rows (Item r) m.

(** [item.children]: every descendant, each row's child before that
    child's own descendants. [depth] bounds the nesting of the generators;
    an empty row yields [None], whose [children] do not exist. *)
Fixpoint children (depth : nat) (h : holder) (m : model) : result (list ref) :=
  match depth with
  | O => recursion_error
  | S depth =>
      foldM (λ acc row,
               match row with
               | Some c => cs ← children depth (Item c) m; Ok (acc ++ c :: cs)
               | None => none_has_no "children"
               end)
            (get_rows h m) []
  end.

(** [item.root]: the loop that follows [parent()] upwards; [steps] bounds
    its iterations, and [None] says it is still running after them. *)
Fixpoint root (steps : nat) (r : ref) (m : model) : option ref :=
  match public_parent r m with
  | None => Some r
  | Some p =>
      match steps with
      | O => None
      | S steps => root steps p m
      end
  end.

(** [FieldItem.clone], [IndexItem.clone] and [IndexItem.deepClone]. The
    other two classes have no [clone]. The rows of the source are read
    once: cloning writes to new objects only. *)
Fixpoint clone (depth : nat) (r : ref) (m : model) : result (ref * model) :=
  match depth with
  | O => recursion_error
  | S depth =>
      match get_self r m with
      | None => none_has_no "clone"
      | Some s =>
          match cls s with
          | FieldItem id =>
              let '(c, m) := alloc (new_item (text s) (FieldItem id)) m in
              m ← foldM (λ m row,
                           match row with
                           | Some ch =>
                               '(cl, m) ← clone depth ch m;
                               Ok (appendRow (Item c) cl m)
                           | None => none_has_no "clone"
                           end)
                        (immediateChildren r m) m;
              Ok (c, m)
          | IndexItem typeName parameters =>
              let '(c, m) := alloc (new_item (text s) (IndexItem typeName parameters)) m in
              m ← deepClone depth r c m;
              Ok (c, m)
          | _ => none_has_no "clone"
          end
      end
  end
with deepClone (depth : nat) (source target : ref) (m : model) : result model :=
  match depth with
  | O => recursion_error
  | S depth =>
      foldM (λ m row,
               match row with
               | Some ch =>
                   '(cl, m) ← clone depth ch m;
                   deepClone depth ch cl (appendRow (Item target) cl m)
               | None => none_has_no "clone"
               end)
            (immediateChildren source m) m
  end.

(** *** The designer window *)

(** Whether each edit action is enabled. *)
Record actions := MkActions {
  actionMoveUp : bool;
  actionMoveDown : bool;
  actionInsertIndex : bool;
  actionInsertField : bool;
  actionCut : bool;
  actionDelete : bool;
  actionCopy : bool;
  actionPaste : bool;
}.

Definition all_disabled : actions :=
  MkActions false false false false false false false false.

(** The state of a [TickerDesigner]: the model, the item being edited, the
    clip item, the actions, the text of the index name line edit (which is
    also its [oldText]: every change stores the new text there), and the
    number of [Signals.modified] emitted. *)
Record window := MkWindow {
  doc : model;
  editItem : option ref;
  clipItem : option ref;
  enabled : actions;
  indexName : string;
  modified : nat;
}.

Definition with_doc (m : model) (w : window) : window :=
  MkWindow m (editItem w) (clipItem w) (enabled w) (indexName w) (modified w).

Definition with_editItem (e : option ref) (w : window) : window :=
  MkWindow (doc w) e (clipItem w) (enabled w) (indexName w) (modified w).

Definition with_clipItem (c : option ref) (w : window) : window :=
  MkWindow (doc w) (editItem w) c (enabled w) (indexName w) (modified w).

Definition with_enabled (a : actions) (w : window) : window :=
  MkWindow (doc w) (editItem w) (clipItem w) a (indexName w) (modified w).

Definition with_indexName (t : string) (w : window) : window :=
  MkWindow (doc w) (editItem w) (clipItem w) (enabled w) t (modified w).

Definition emit_modified (w : window) : window :=
  MkWindow (doc w) (editItem w) (clipItem w) (enabled w) (indexName w)
           (S (modified w)).

(** A [QAction] runs its handler only while it is enabled. *)
Definition trigger (is_enabled : actions → bool) (handler : window → window)
  (w : window) : window :=
  if is_enabled (enabled w) then handler w else w.

(** [enableActions(index)]. An index that holds no item stops the method
    before any action is set. *)
Definition enableActions (ix : option index) (w : window) : window :=
  let m := doc w in
  match ix with
  | Some (h, row) =>
      let up := bool_decide (is_Some (sibling (row - 1) ix m)) in
      let down := bool_decide (is_Some (sibling (row + 1) ix m)) in
      match itemFromIndex ix m ≫= λ item, pair item <$> get_type item m with
      | Some (item, t) =>
          let clip := clipItem w in
          let paste := canPaste t (clip ≫= λ c, get_type c m) in
          let paste :=
            if bool_decide (is_Some clip)
               && from_option cutSource false (clip ≫= λ c, get_self c m)
               && bool_decide (clip = Some item)
            then false else paste in
          with_enabled
            (MkActions up down
               (canInsert t [IndexItemT]) (canInsert t [FieldItemT])
               (canCut t) (canDelete t) (canCopy t) paste) w
      | None => w
      end
  | None => with_enabled all_disabled w
  end.

(** [on_treeView_clicked(index)]: the actions are set for the item, the
    item's page is filled in while [editItem] is [None] (for an index the
    name line edit takes the item's text), and the item becomes the
    [editItem]. The parameter editors built for an index follow the
    registry of index types, which is outside this file; the default
    entries they may add to the clicked item's own parameters are left
    out. *)
Definition on_treeView_clicked (ix : option index) (w : window) : window :=
  let w := enableActions ix w in
  match itemFromIndex ix (doc w) with
  | Some item =>
      let w :=
        match get_self item (doc w) with
        | Some s =>
            match cls s with
            | IndexItem _ _ => with_indexName (text s) w
            | _ => w
            end
        | None => w
        end in
      with_editItem (Some item) w
  | None => w
  end.

(** [on_actionCopy_triggered] and [on_actionCut_triggered]. Without an
    [editItem] the last statement fails on [None]. *)
Definition on_actionCopy_triggered (w : window) : window :=
  if negb (actionCopy (enabled w)) then w
  else
    let w :=
      match clipItem w with
      | Some c => with_doc (update_self c resetForeground (doc w)) w
      | None => w
      end in
    let w := with_clipItem (editItem w) w in
    match clipItem w with
    | Some c => with_doc (update_self c setCopy (doc w)) w
    | None => w
    end.

Definition on_actionCut_triggered (w : window) : window :=
  if negb (actionCut (enabled w)) then w
  else
    let w :=
      match clipItem w with
      | Some c => with_doc (update_self c resetForeground (doc w)) w
      | None => w
      end in
    let w := with_clipItem (editItem w) w in
    match clipItem w with
    | Some c => with_doc (update_self c setCut (doc w)) w
    | None => w
    end.


(** [moveItem(item, offset)]. *)
Definition moveItem (item : ref) (offset : Z) (w : window) : window :=
  let m := doc w in
  let index := indexFromItem item m in
  let row := from_option snd (-1) index in
  let otherindex := sibling (row + offset) index m in
  let other := itemFromIndex otherindex m in
  let parent := from_option Item InvisibleRoot (public_parent item m) in
  let m := (takeChild parent (row + offset) m).2 in
  let m := (takeChild parent row m).2 in
  let m := setChild parent (row + offset) (Some item) m in
  let m := setChild parent row other m in
  let newindex := indexFromItem item m in
  emit_modified (enableActions newindex (with_doc m w)).



(** [on_actionPaste_triggered]. [limit] is the interpreter's recursion
    limit, for [clone]. A clip item without parent item, or one that cannot
    be cloned, ends the handler with an exception. *)
Definition on_actionPaste_triggered (limit : nat) (w : window) : window :=
  if negb (actionPaste (enabled w)) then w
  else
    match clipItem w, editItem w with
    | Some sourceitem, Some targetitem =>
        let m := doc w in
        let sourcerow := from_option snd (-1) (indexFromItem sourceitem m) in
        let sourceparent := public_parent sourceitem m in
        if from_option cutSource false (get_self sourceitem m) then
          match sourceparent with
          | Some sp =>
              let m := (takeChild (Item sp) sourcerow m).2 in
              let newchild := sourceitem in
              let m := setChild (Item targetitem) (rowCount (Item targetitem) m)
                         (Some newchild) m in
              let m := update_self newchild resetForeground m in
              let m := removeRow (Item sp) sourcerow m in
              let w := with_clipItem None (with_doc m w) in
              emit_modified (enableActions (indexFromItem targetitem m) w)
          | None => w
          end
        else
          match clone limit sourceitem m with
          | Ok (newchild, m) =>
              let m := setChild (Item targetitem) (rowCount (Item targetitem) m)
                         (Some newchild) m in
              emit_modified
                (enableActions (indexFromItem targetitem m) (with_doc m w))
          | Raise _ => w
          end
    | _, _ => w
    end.

(** *** Line references *)

(** [value == s] for a string [s]: only an equal string is equal to it. *)
Definition py_eq_str (value : pyobj) (s : string) : bool :=
  match value with
  | PyStr v => String.eqb v s
  | _ => false
  end.

(** The inner loop of [updateLines] over [child.parameters.items()], a copy
    of the entries taken before the loop: the dict after the loop and the
    number of entries set. *)
Definition rewrite_lines (previous current : string) (parameters : dict)
  : dict * nat :=
  foldl (λ '(d, modified) '(key, value),
           if py_eq_str value previous
           then (dict_setitem key (PyStr current) d, S modified)
           else (d, modified))
        (parameters, 0%nat) parameters.

(** [hasattr(obj, 'parameters')] and the attribute: indexes only. *)
Definition get_parameters (r : ref) (m : model) : option dict :=
  s ← get_self r m;
  match cls s with
  | IndexItem _ parameters => Some parameters
  | _ => None
  end.

Definition with_parameters (parameters : dict) (s : SchemaItem) : SchemaItem :=
  match cls s with
  | IndexItem typeName _ =>
      MkItem (text s) (IndexItem typeName parameters)
             (cutSource s) (copySource s) (foreground s)
  | _ => s
  end.

(** The body of the outer loop of [updateLines] for one [child]. *)
Definition updateLines_child (previous current : string)
    (acc : model * nat) (child : ref) : model * nat :=
  let '(m, modified) := acc in
  match get_parameters child m with
  | Some parameters =>
      let '(d, n) := rewrite_lines previous current parameters in
      (update_self child (with_parameters d) m, (modified + n)%nat)
  | None => (m, modified)
  end.

(** [updateLines(item, previous, current)]: the count of modified
    references, with the window after the call. [limit] bounds the loop of
    [root] and the nesting of [children]; [None] is a call that does not
    return a count within it. *)
Definition updateLines (limit : nat) (item : option ref)
    (previous current : string) (w : window) : option (nat * window) :=
  match item with
  | None => Some (0%nat, w)
  | Some item =>
      rt ← root limit item (doc w);
      match children limit (Item rt) (doc w) with
      | Ok cs =>
          let pred obj :=
            bool_decide (obj ≠ item) && bool_decide (is_Some (get_parameters obj (doc w))) in
          let '(m, modified) :=
            foldl (updateLines_child previous current) (doc w, 0%nat)
                  (filter (λ c, pred c = true) cs) in
          let w := with_doc m w in
          Some (modified, if decide (modified = 0%nat) then w else emit_modified w)
      | Raise _ => None
      end
  end.

(** [on_indexName_textChanged(text)]. The handler also stores the text in a
    [symbol] attribute of the item, which nothing reads on a field or an
    index; it is left out. *)
Definition on_indexName_textChanged (limit : nat) (txt : string) (w : window)
  : option window :=
  let old := indexName w in
  '(renamed, w) ← updateLines limit (editItem w) old txt w;
  let w := with_indexName txt w in
  match editItem w with
  | Some e =>
      let w := with_doc (update_self e (setText txt) (doc w)) w in
      Some (if decide (renamed = 0%nat) then emit_modified w else w)
  | None => Some w
  end.

(** The rename as the specification words it: every entry whose value
    equals the old name is rewritten to the new name, and the count is the
    number of such entries. *)
Definition renamed_parameters (previous current : string) (parameters : dict)
  : dict :=
  map (λ '(key, value),
         (key, if py_eq_str value previous then PyStr current else value))
      parameters.

Definition line_count (previous : string) (parameters : dict) : nat :=
  length (filter (λ kv, py_eq_str kv.2 previous = true) parameters).

Definition renamed_item (previous current : string) (s : SchemaItem) : SchemaItem :=
  match cls s with
  | IndexItem _ parameters =>
      with_parameters (renamed_parameters previous current parameters) s
  | _ => s
  end.

(** The references to [previous] held by the item [c]. *)
Definition lines_of (previous : string) (m : model) (c : ref) : nat :=
  from_option (line_count previous) 0%nat (get_parameters c m).

(** The parameters of the items [cs] are dicts without repeated keys. *)
Definition parameters_wf (m : model) (cs : list ref) : bool :=
  forallb (λ c, bool_decide (dict_wf (default [] (get_parameters c m)))) cs.

(** *** Names for retyped indexes *)

(** [TickerDesigner.defaultText]. *)
Definition defaultText : string := "Unknown".

(** [widget.setText(text)] on the index name line edit: the change handler
    runs when the text changes. *)
Definition indexName_setText (limit : nat) (txt : string) (w : window)
  : option window :=
  if decide (txt = indexName w) then Some w
  else on_indexName_textChanged limit txt w.

Definition get_text (r : ref) (m : model) : option string :=
  text <$> get_self r m.

Definition get_typeName (r : ref) (m : model) : option string :=
  s ← get_self r m;
  match cls s with
  | IndexItem typeName _ => Some typeName
  | _ => None
  end.

(** [model.findItems(text, Qt.MatchStartsWith | Qt.MatchRecursive)]: the
    items of the whole model, in tree order, whose text starts with [text],
    case ignored. *)
Definition findItems (limit : nat) (txt : string) (m : model)
  : option (list ref) :=
  match children limit InvisibleRoot m with
  | Ok cs =>
      Some (filter (λ c, from_option (starts_with_ignoring_case txt) false
                           (get_text c m) = true) cs)
  | Raise _ => None
  end.

(** [int(name.split('-')[1])]: [None] when the name has no second part
    ([IndexError]) or the part is no integer ([ValueError]). *)
Definition name_offset (name : string) : option Z :=
  match str_split "-" name with
  | _ :: part :: _ => py_int part
  | _ => None
  end.

(** The loop of [maybeChangeIndexName] over the matches. *)
Fixpoint suffix_loop (limit : nat) (item : ref) (m : model)
    (matches : list ref) (suffix : Z) : option Z :=
  match matches with
  | [] => Some suffix
  | mtch :: rest =>
      ri ← root limit item m;
      rm ← root limit mtch m;
      let suffix :=
        if decide (ri = rm) then
          match get_text mtch m ≫= name_offset with
          | Some offset => Z.max suffix (offset + 1)
          | None => suffix
          end
        else suffix in
      suffix_loop limit item m rest suffix
  end.

(** [maybeChangeIndexName(item, previous)]; [None] when one of its loops
    does not end within [limit]. *)
Definition maybeChangeIndexName (limit : nat) (item : ref) (previous : string)
    (w : window) : option window :=
  let current := indexName w in
  if bool_decide (current ∈ [defaultText; ""])
     || startswith (String.append previous "-") current
  then
    typeName ← get_typeName item (doc w);
    matches ← findItems limit typeName (doc w);
    suffix ← suffix_loop limit item (doc w) matches 1;
    w ← indexName_setText limit
          (String.append typeName (String.append "-" (str_of_int suffix))) w;
    Some (emit_modified w)
  else Some w.

(** The name that the specification describes: the type name, a dash, and
    one more than the greatest integer [k] for which an item of the same
    root subtree is named exactly [typeName-k]; 1 without such an item. *)
Definition exact_offset (typeName name : string) : option Z :=
  match str_split "-" name with
  | [t; part] =>
      if String.eqb t typeName then
        match number_value (list_ascii_of_string part) with
        | Some k => Some k
        | None => None
        end
      else None
  | _ => None
  end.

Definition spec_auto_name (typeName : string) (names : list string) : string :=
  String.append typeName
    (String.append "-"
       (str_of_int (foldl Z.max 1 (map (Z.add 1) (omap (exact_offset typeName) names))))).




(** The rows of [h] are in order: every row holds an item, none twice, and
    each of them has [h] as its parent and is not [h] itself. *)
Definition rows_attached (h : holder) (m : model) : bool :=
  bool_decide (NoDup (get_rows h m)) &&
  forallb (λ row,
             match row with
             | Some c =>
                 bool_decide (get_parent c m = Some h) && bool_decide (h ≠ Item c)
             | None => false
             end)
          (get_rows h m).

(** The statements that [on_actionCopy_triggered] and
    [on_actionCut_triggered] share behind their guard, for either marking
    method. *)
Definition clip_body (mark : SchemaItem → SchemaItem) (w : window) : window :=
  let w :=
    match clipItem w with
    | Some c => with_doc (update_self c resetForeground (doc w)) w
    | None => w
    end in
  let w := with_clipItem (editItem w) w in
  match clipItem w with
  | Some c => with_doc (update_self c mark (doc w)) w
  | None => w
  end.

(** An item shows a clip highlight when its foreground is the blue of
    [setCopy] or the red of [setCut]; it carries a clip flag when
    [cutSource] or [copySource] is set. *)
Definition highlighted (s : SchemaItem) : bool :=
  match foreground s with
  | BrushBlue | BrushRed => true
  | _ => false
  end.

Definition flagged (s : SchemaItem) : bool := cutSource s || copySource s.

(** The references of the items of the store that satisfy [p]. *)
Definition items_where (p : SchemaItem → bool) (m : model) : list ref :=
  filter (λ r, from_option p false (get_self r m)) (seq 0 (length (objects m))).

(** Every highlighted item of the store is the clip item. *)
Definition highlight_is_clip (w : window) : Prop :=
  Forall (λ r, clipItem w = Some r) (items_where highlighted (doc w)).

#[global] Instance highlight_is_clip_dec w : Decision (highlight_is_clip w).
Proof. unfold highlight_is_clip. apply _. Defined.

(** What cut and copy do to the clip: [e], the edited item, becomes the clip
    item and is marked; the item that was the clip before has its
    foreground reset and keeps its flags; no other item changes; and [e] is
    the only highlighted item. *)
Definition clip_moved_to (mark : SchemaItem → SchemaItem) (w w' : window)
    (e : ref) (s : SchemaItem) : Prop :=
  clipItem w' = Some e ∧
  get_self e (doc w') = Some (mark s) ∧
  (∀ c sc, clipItem w = Some c → c ≠ e → get_self c (doc w) = Some sc →
     get_self c (doc w') = Some (resetForeground sc)) ∧
  (∀ r, r ≠ e → clipItem w ≠ Some r → get_self r (doc w') = get_self r (doc w)) ∧
  highlight_is_clip w' ∧
  (∀ r s', get_self r (doc w') = Some s' → highlighted s' = true → r = e).

(** *** A sample document *)

Definition empty_window : window :=
  MkWindow (MkModel [] []) None None all_disabled "" 0.

Definition sample_ticker : SchemaItem :=
  new_item "AAPL"
    (TickerItem (MkTicker (PyInt 1) "AAPL" (PyStr "SMART") (PyStr "STK")
                   (PyStr "") (PyStr "") (PyFloat float_zero) (PyStr "USD"))).

Definition sample_callable : SchemaItem :=
  new_item "job"
    (CallableItem (MkCallable "job" (PyInt 5) (PyStr "run.py") (PyStr "")
                     (PyStr "thread") (PyStr "script") (PyList []))).

(** A callable and a ticker at the root; the ticker holds the fields [bid]
    and [ask]; [bid] holds the index [X] over the index [V] over the index
    [U], and the index [KAMA-3], whose parameter [in] names [X]. References
    are given in the order of allocation: callable 0, ticker 1, bid 2,
    ask 3, X 4, V 5, U 6, KAMA-3 7. *)
Definition sample_doc : model :=
  let '(job, m) := alloc sample_callable (MkModel [] []) in
  let '(aapl, m) := alloc sample_ticker m in
  let '(bid, m) := alloc (new_item "bid" (FieldItem (PyInt 1))) m in
  let '(ask, m) := alloc (new_item "ask" (FieldItem (PyInt 2))) m in
  let '(x, m) := alloc (new_item "X" (IndexItem "SMA" [("periods", PyInt 9)])) m in
  let '(y, m) := alloc (new_item "V" (IndexItem "EMA" [("in", PyStr "U")])) m in
  let '(z, m) := alloc (new_item "U" (IndexItem "EMA" [])) m in
  let '(k, m) := alloc (new_item "KAMA-3"
                          (IndexItem "KAMA" [("in", PyStr "X"); ("n", PyInt 3)])) m in
  let m := appendRow InvisibleRoot job m in
  let m := appendRow InvisibleRoot aapl m in
  let m := appendRow (Item aapl) bid m in
  let m := appendRow (Item aapl) ask m in
  let m := appendRow (Item bid) x m in
  let m := appendRow (Item bid) k m in
  let m := appendRow (Item x) y m in
  appendRow (Item y) z m.

Definition sample_window : window :=
  MkWindow sample_doc None None all_disabled "" 0.

(** A ticker (0) with one field (1) that holds an index for each entry
    [(text, typeName)], in order, from reference 2 on. *)
Definition indexes_doc (entries : list (string * string)) : model :=
  let '(aapl, m) := alloc sample_ticker (MkModel [] []) in
  let '(bid, m) := alloc (new_item "bid" (FieldItem (PyInt 1))) m in
  let m := appendRow InvisibleRoot aapl m in
  let m := appendRow (Item aapl) bid m in
  foldl (λ m '(txt, typeName),
           let '(r, m) := alloc (new_item txt (IndexItem typeName [])) m in
           appendRow (Item bid) r m)
        m entries.

(** The window after a click on the item [r] of [m]. *)
Definition window_on (m : model) (r : ref) : window :=
  on_treeView_clicked (indexFromItem r m)
    (MkWindow m None None all_disabled "" 0).

(** A click on the item [r] in the window [w]. *)
Definition click (r : ref) (w : window) : window :=
  on_treeView_clicked (indexFromItem r (doc w)) w.

(** Copy [bid], then copy [ask]. *)
Definition two_copies : window :=
  on_actionCopy_triggered (click 3%nat
    (on_actionCopy_triggered (click 2%nat sample_window))).

(** Cut [X], select [ask], paste. *)
Definition cut_X_selected_ask : window :=
  click 3%nat (on_actionCut_triggered (click 4%nat sample_window)).

Definition cut_and_paste : window :=
  on_actionPaste_triggered 10 cut_X_selected_ask.

(** Copy [X], then delete [bid], which holds [X]. *)
Definition copied_X_selected_bid : window :=
  click 2%nat (on_actionCopy_triggered (click 4%nat sample_window)).


(** An index just retyped to [Foo], still named by the default text, next
    to indexes named [Foo-1] and [Foo-3]; and the same next to an index
    named [FooBar-7]. *)
Definition retyped_after_1_and_3 : window :=
  window_on (indexes_doc [("Foo-1", "Foo"); ("Foo-3", "Foo"); ("Unknown", "Foo")])
            4%nat.

Definition retyped_after_FooBar : window :=
  window_on (indexes_doc [("FooBar-7", "Bar"); ("Unknown", "Foo")]) 3%nat.


(** *** Inserting fields and indexes *)

(** [FieldItem(defaultText)] and [IndexItem(defaultText)]. *)
Definition new_field : SchemaItem := new_item defaultText (FieldItem (PyInt (-1))).

Definition new_index : SchemaItem := new_item defaultText (IndexItem defaultText []).

(** [addFieldItem] and [addIndexItem], then [Signals.modified]: the new
    item becomes the last row of the edited item. Without an edited item
    the call fails on [None] after the item is built. *)
Definition on_actionInsertField_triggered (w : window) : window :=
  let '(item, m) := alloc new_field (doc w) in
  match editItem w with
  | Some e => emit_modified (with_doc (appendRow (Item e) item m) w)
  | None => with_doc m w
  end.

Definition on_actionInsertIndex_triggered (w : window) : window :=
  let '(item, m) := alloc new_index (doc w) in
  match editItem w with
  | Some e => emit_modified (with_doc (appendRow (Item e) item m) w)
  | None => with_doc m w
  end.

(** The model [m'] is [m] with one new item [s], the next reference of
    the store, as the last row of [e]: the new item has [e] as parent and
    no rows, and every other item has its attributes, parent and rows as
    before. *)
Definition inserted_under (s : SchemaItem) (e : ref) (m m' : model) : Prop :=
  let item := length (objects m) in
  get_rows (Item e) m' = get_rows (Item e) m ++ [Some item] ∧
  get_self item m' = Some s ∧
  get_parent item m' = Some (Item e) ∧
  get_rows (Item item) m' = [] ∧
  (∀ c, c ≠ item → get_self c m' = get_self c m ∧ get_parent c m' = get_parent c m) ∧
  (∀ h', h' ≠ Item e → h' ≠ Item item → get_rows h' m' = get_rows h' m).

(** *** The message types of a callable *)

(** [key in v] for a string [key]: an equal element of a list, a substring
    of a string, a key of a dict; a number is not iterable. *)
Definition py_contains (key : string) (v : pyobj) : result bool :=
  match v with
  | PyList l => Ok (existsb (λ x, py_eq_str x key) l)
  | PyStr s => Ok (bool_decide (is_Some (String.index 0 key s)))
  | PyDict d => Ok (bool_decide (key ∈ dict_keys d))
  | PyInt _ | PyFloat _ => Raise (TypeError "argument is not iterable")
  end.

(** [l.remove(key)], entered when [key in l]: the first equal element
    leaves the list. *)
Fixpoint list_remove (key : string) (l : list pyobj) : list pyobj :=
  match l with
  | [] => []
  | x :: l' => if py_eq_str x key then l' else x :: list_remove key l'
  end.

(** [v.append(key)] and [v.remove(key)]: methods of a list only. *)
Definition py_append (key : string) (v : pyobj) : result pyobj :=
  match v with
  | PyList l => Ok (PyList (l ++ [PyStr key]))
  | _ => Raise (AttributeError "append")
  end.

Definition py_remove (key : string) (v : pyobj) : result pyobj :=
  match v with
  | PyList l => Ok (PyList (list_remove key l))
  | _ => Raise (AttributeError "remove")
  end.

Definition get_messageTypes (r : ref) (m : model) : option pyobj :=
  s ← get_self r m;
  match cls s with
  | CallableItem c => Some (messageTypes c)
  | _ => None
  end.

Definition with_messageTypes (types : pyobj) (s : SchemaItem) : SchemaItem :=
  match cls s with
  | CallableItem c =>
      MkItem (text s)
             (CallableItem (MkCallable (name c) (threadInterval c) (scriptName c)
                              (syspathName c) (execType c) (srcType c) types))
             (cutSource s) (copySource s) (foreground s)
  | _ => s
  end.

(** [on_callableMessageTypes_itemChanged(messageItem)], with the check
    state and the text of [messageItem]. The list of the edited item is
    appended to or removed from in place; no signal is emitted. An edited
    item of another class has no [messageTypes]. *)
Definition on_callableMessageTypes_itemChanged (checked : bool) (key : string)
    (w : window) : result window :=
  match editItem w with
  | Some item =>
      match get_messageTypes item (doc w) with
      | Some types =>
          present ← py_contains key types;
          if checked && negb present then
            types ← py_append key types;
            Ok (with_doc (update_self item (with_messageTypes types) (doc w)) w)
          else if negb checked && present then
            types ← py_remove key types;
            Ok (with_doc (update_self item (with_messageTypes types) (doc w)) w)
          else Ok w
      | None => Raise (AttributeError "messageTypes")
      end
  | None => Ok w
  end.

(** *** What cloning leaves alone *)

(** From [m] to [m'] the store has only grown and the objects below [n],
    with the rows of the root, are the same. *)
Definition unchanged_below (n : nat) (m m' : model) : Prop :=
  root_rows m' = root_rows m ∧
  (length (objects m) ≤ length (objects m'))%nat ∧
  ∀ i, (i < n)%nat → objects m' !! i = objects m !! i.

(** The object [t] has the same attributes and parent in [m'] as in [m]. *)
Definition kept (t : ref) (m m' : model) : Prop :=
  ∃ o o', objects m !! t = Some o ∧ objects m' !! t = Some o' ∧
          self o' = self o ∧ parent o' = parent o.

(** The value of the subtree at [r]: the item with its rows, when all rows
    within [depth] levels hold items. *)
Fixpoint tree_of (depth : nat) (r : ref) (m : model) : option Schema.item :=
  match depth with
  | O => None
  | S depth =>
      o ← objects m !! r;
      rs ← mapM (M:=option) (λ row, row ≫= λ c, tree_of depth c m) (rows o);
      Some (Schema.Node (self o) rs)
  end.

End Designer.

(* ===================================================================== *)
(** * Properties of saving and loading *)

Module SchemaFacts.
Import Schema.

(** Induction over an item with the hypothesis for every row. *)
Lemma item_rows_ind (P : item → Prop) :
  (∀ s rows, Forall P rows → P (Node s rows)) → ∀ it, P it.
Proof.
  intros step. fix IH 1. intros [s rows]. apply step.
  induction rows as [|r rows IHrows]; constructor; [apply IH | exact IHrows].
Qed.

Lemma for_each_in_get_spec {A} key (f : pyobj → result A) (d : dict) :
  for_each_in_get key f d =
    match dict_get key d with
    | None => Ok []
    | Some (PyList l) => mapM f l
    | Some _ => Raise (TypeError "object is not iterable")
    end.
Proof.
  induction d as [|[k v] d IH]; simpl; [done|].
  destruct (String.eqb k key); [by destruct v | exact IH].
Qed.

Lemma mapM_map_Ok {A B C} (f : B → result C) (g : A → B) (h : A → C) l :
  Forall (λ a, f (g a) = Ok (h a)) l → mapM f (map g l) = Ok (map h l).
Proof.
  induction 1 as [|a l Ha _ IH]; simpl; [done|].
  by rewrite Ha; simpl; rewrite IH.
Qed.

Lemma index_roundtrip it :
  index_tree it = true → IndexItem_fromSchema (toSchema it) = Ok (unmarked it).
Proof.
  induction it as [s rows IH] using item_rows_ind. simpl.
  intros [Hs Hrows]%andb_prop. unfold is_index in Hs.
  destruct (cls s) as [| | |tn ps] eqn:Hcls; try done.
  cbn [IndexItem_fromSchema]. rewrite for_each_in_get_spec. cbn.
  rewrite (mapM_map_Ok _ _ unmarked).
  - cbn. unfold unmark. by rewrite Hcls.
  - rewrite forallb_forall in Hrows. rewrite Forall_forall in IH |- *.
    intros r Hr. apply IH; [done|]. apply Hrows. by apply list_elem_of_In.
Qed.

Lemma field_roundtrip it :
  field_tree it = true → FieldItem_fromSchema (toSchema it) = Ok (unmarked it).
Proof.
  destruct it as [s rows]. simpl. intros [Hs Hrows]%andb_prop.
  unfold is_field in Hs. destruct (cls s) as [| |id|] eqn:Hcls; try done.
  cbn [FieldItem_fromSchema]. rewrite for_each_in_get_spec. cbn.
  rewrite (mapM_map_Ok _ _ unmarked).
  - cbn. unfold unmark. by rewrite Hcls.
  - rewrite forallb_forall in Hrows. apply Forall_forall. intros r Hr.
    apply index_roundtrip, Hrows. by apply list_elem_of_In.
Qed.

(** A root entry written by [toSchema] is a dict, and [addSchemaItem]
    appends the item it describes. *)
Lemma root_roundtrip it w :
  constructible it = true →
  ∃ kwds, toSchema it = PyDict kwds ∧
    addSchemaItem kwds w =
      (Ok (unmarked it), set_model (model w ++ [unmarked it]) w).
Proof.
  destruct it as [s rows]. simpl. destruct (cls s) as [c|t| |] eqn:Hcls; try done.
  - intros [Ht Hr]%andb_prop. apply bool_decide_eq_true in Ht, Hr. subst rows.
    eexists; split; [done|].
    unfold addSchemaItem, addCallableItem, CallableItem_fromSchema. cbn.
    unfold unmark. rewrite Hcls, Ht. by destruct c.
  - intros [Ht Hr]%andb_prop. apply bool_decide_eq_true in Ht.
    eexists; split; [done|].
    unfold addSchemaItem, addTickerItem, TickerItem_fromSchema. cbn.
    rewrite (mapM_map_Ok _ _ unmarked).
    + cbn. unfold unmark. rewrite Hcls, Ht. by destruct t.
    + rewrite forallb_forall in Hr. apply Forall_forall. intros r Hin.
      apply field_roundtrip, Hr. by apply list_elem_of_In.
Qed.

Lemma readSchema_loop_roundtrip l w :
  forallb constructible l = true →
  readSchema_loop (map toSchema l) w =
    (Ok (), set_model (model w ++ map unmarked l) w).
Proof.
  revert w. induction l as [|it l IH]; intros w; simpl.
  - intros _. rewrite app_nil_r. by destruct w.
  - intros [Hit Hl]%andb_prop.
    destruct (root_roundtrip it w Hit) as (kwds & -> & ->).
    rewrite IH by done. simpl. by rewrite <- app_assoc.
Qed.

(** C1. Reading the schema written from a constructible tree into an empty
    window rebuilds the tree: the same root rows in the same order, each
    item of the same class with equal text, attributes and parameters at
    every position, up to the clip markers (flags and foreground), which
    are those of new items. *)
Theorem schema_roundtrip (w w0 : window) (filename : string) :
  model w0 = [] →
  forallb constructible (model w) = true →
  readSchema (schema w) filename w0 =
    MkWindow (map unmarked (model w)) (Some (schema w)) (Some filename)
             (warnings w0).
Proof.
  intros Hempty Hc. unfold readSchema, readSchema_try, schema.
  rewrite readSchema_loop_roundtrip by done. simpl. by rewrite Hempty.
Qed.







(** *** What the loader builds is constructible *)









Lemma schema_roundtrip_witness :
  readSchema (schema sample) "aapl.schema" blank =
    MkWindow (map unmarked (model sample)) (Some (schema sample))
             (Some "aapl.schema") (warnings blank).
Proof. apply (schema_roundtrip sample blank "aapl.schema"); reflexivity. Defined.


End SchemaFacts.

(* ===================================================================== *)
(** * Properties of the editing actions *)

Module DesignerFacts.
Import Designer.

(** *** Rows and parents are independent fields *)

Lemma get_rows_set_parent h c p m :
  get_rows h (set_parent c p m) = get_rows h m.
Proof.
  destruct h as [|r]; [done|]. unfold get_rows, set_parent, update_object. simpl.
  destruct (decide (c = r)) as [->|Hne].
  - rewrite list_lookup_alter_eq. by destruct (objects m !! r).
  - by rewrite list_lookup_alter_ne.
Qed.

Lemma get_parent_set_rows c h l m :
  get_parent c (set_rows h l m) = get_parent c m.
Proof.
  destruct h as [|r]; [done|]. unfold get_parent, set_rows, update_object. simpl.
  destruct (decide (r = c)) as [->|Hne].
  - rewrite list_lookup_alter_eq. by destruct (objects m !! c).
  - by rewrite list_lookup_alter_ne.
Qed.

Lemma get_rows_set_rows h l m :
  (∀ r, h = Item r → is_Some (objects m !! r)) →
  get_rows h (set_rows h l m) = l.
Proof.
  destruct h as [|r]; [done|]. intros H. destruct (H r eq_refl) as [o Ho].
  unfold get_rows, set_rows, update_object. simpl.
  by rewrite list_lookup_alter_eq, Ho.
Qed.

Lemma get_rows_set_rows_ne h h' l m :
  h ≠ h' → get_rows h (set_rows h' l m) = get_rows h m.
Proof.
  intros Hne. destruct h as [|r], h' as [|r']; try done.
  unfold get_rows, set_rows, update_object. simpl.
  rewrite list_lookup_alter_ne; [done|congruence].
Qed.

Lemma get_parent_set_parent c p m :
  is_Some (objects m !! c) → get_parent c (set_parent c p m) = p.
Proof.
  intros [o Ho]. unfold get_parent, set_parent, update_object. simpl.
  by rewrite list_lookup_alter_eq, Ho.
Qed.

Lemma get_parent_set_parent_ne c c' p m :
  c ≠ c' → get_parent c (set_parent c' p m) = get_parent c m.
Proof.
  intros Hne. unfold get_parent, set_parent, update_object. simpl.
  by rewrite list_lookup_alter_ne.
Qed.

Lemma objects_set_parent_is_Some r c p m :
  is_Some (objects (set_parent c p m) !! r) ↔ is_Some (objects m !! r).
Proof.
  unfold set_parent, update_object. simpl.
  rewrite !lookup_lt_is_Some. by rewrite length_alter.
Qed.

Lemma objects_set_rows_is_Some r h l m :
  is_Some (objects (set_rows h l m) !! r) ↔ is_Some (objects m !! r).
Proof.
  destruct h as [|r']; [done|]. unfold set_rows, update_object. simpl.
  rewrite !lookup_lt_is_Some. by rewrite length_alter.
Qed.

Lemma get_parent_is_Some c m h :
  get_parent c m = Some h → is_Some (objects m !! c).
Proof. unfold get_parent. destruct (objects m !! c); [eauto|done]. Qed.

Lemma get_rows_lookup_is_Some h m i x :
  get_rows h m !! i = Some x → ∀ r, h = Item r → is_Some (objects m !! r).
Proof.
  intros Hl r ->. unfold get_rows in Hl.
  destruct (objects m !! r); [eauto|done].
Qed.

(** *** The row primitives on rows in order *)

Lemma rows_attached_spec h m :
  rows_attached h m = true →
  NoDup (get_rows h m) ∧
  ∀ i row, get_rows h m !! i = Some row →
    ∃ c, row = Some c ∧ get_parent c m = Some h ∧ h ≠ Item c.
Proof.
  unfold rows_attached. intros [Hnd Hall]%andb_prop.
  apply bool_decide_eq_true in Hnd. split; [done|].
  intros i row Hi. rewrite forallb_forall in Hall.
  specialize (Hall row). destruct row as [c|].
  - destruct (andb_prop _ _ (Hall (proj1 (list_elem_of_In _ _)
        (list_elem_of_lookup_2 _ _ _ Hi)))) as [H1 H2].
    apply bool_decide_eq_true in H1, H2. eauto.
  - specialize (Hall (proj1 (list_elem_of_In _ _)
        (list_elem_of_lookup_2 _ _ _ Hi))). done.
Qed.

Lemma indexFromItem_Some item m h row :
  indexFromItem item m = Some (h, row) →
  get_parent item m = Some h ∧
  ∃ i, row = Z.of_nat i ∧ get_rows h m !! i = Some (Some item).
Proof.
  unfold indexFromItem. intros H.
  destruct (get_parent item m) as [h'|] eqn:Hp; [|done]. simpl in H.
  destruct (list_find _ _) as [[i x]|] eqn:Hf; [|done]. simpl in H.
  injection H as <- <-. apply list_find_Some in Hf as (Hi & -> & _). eauto.
Qed.


Lemma child_of_nat h i m :
  child h (Z.of_nat i) m = mjoin (get_rows h m !! i).
Proof.
  unfold child. rewrite decide_True by lia. by rewrite Nat2Z.id.
Qed.

Lemma takeChild_Some h i c m :
  get_rows h m !! i = Some (Some c) →
  takeChild h (Z.of_nat i) m =
    (Some c, set_parent c None (set_rows h (<[i:=None]> (get_rows h m)) m)).
Proof.
  intros Hi. unfold takeChild. rewrite child_of_nat, Hi. simpl.
  by rewrite Nat2Z.id.
Qed.


Lemma doc_enableActions ix w : doc (enableActions ix w) = doc w.
Proof.
  unfold enableActions. destruct ix as [[h row]|]; [|done].
  by destruct (_ ≫= _) as [[item t]|].
Qed.

Lemma clipItem_enableActions ix w : clipItem (enableActions ix w) = clipItem w.
Proof.
  unfold enableActions. destruct ix as [[h row]|]; [|done].
  by destruct (_ ≫= _) as [[item t]|].
Qed.

Lemma editItem_enableActions ix w : editItem (enableActions ix w) = editItem w.
Proof.
  unfold enableActions. destruct ix as [[h row]|]; [|done].
  by destruct (_ ≫= _) as [[item t]|].
Qed.


Lemma get_self_set_rows c h l m : get_self c (set_rows h l m) = get_self c m.
Proof.
  destruct h as [|r]; [done|]. unfold get_self, set_rows, update_object. simpl.
  destruct (decide (r = c)) as [->|Hne].
  - rewrite list_lookup_alter_eq. by destruct (objects m !! c).
  - by rewrite list_lookup_alter_ne.
Qed.

Lemma get_self_set_parent c c' p m : get_self c (set_parent c' p m) = get_self c m.
Proof.
  unfold get_self, set_parent, update_object. simpl.
  destruct (decide (c' = c)) as [->|Hne].
  - rewrite list_lookup_alter_eq. by destruct (objects m !! c).
  - by rewrite list_lookup_alter_ne.
Qed.





(** *** Cut and copy *)

Lemma get_self_update_self r c f m :
  get_self r (update_self c f m) =
    if decide (r = c) then f <$> get_self r m else get_self r m.
Proof.
  unfold get_self, update_self, update_object. simpl. case_decide as Hrc.
  - subst. rewrite list_lookup_alter_eq. by destruct (objects m !! c).
  - by rewrite list_lookup_alter_ne.
Qed.

Lemma elem_of_items_where p m r :
  r ∈ items_where p m ↔ ∃ s, get_self r m = Some s ∧ p s = true.
Proof.
  unfold items_where. rewrite list_elem_of_filter, elem_of_seq. split.
  - intros [Hp _]. destruct (get_self r m) as [s|]; simpl in Hp; [|done].
    exists s. split; [done|]. by apply Is_true_true.
  - intros (s & Hs & Hp). rewrite Hs. simpl. split; [by apply Is_true_true|].
    unfold get_self in Hs. destruct (objects m !! r) eqn:Ho; [|done].
    apply lookup_lt_Some in Ho. lia.
Qed.

Lemma highlight_is_clip_spec w :
  highlight_is_clip w ↔
  ∀ r s, get_self r (doc w) = Some s → highlighted s = true → clipItem w = Some r.
Proof.
  unfold highlight_is_clip. rewrite Forall_forall. split.
  - intros H r s Hs Hh. apply H, elem_of_items_where. eauto.
  - intros H r (s & Hs & Hh)%elem_of_items_where. eauto.
Qed.

Lemma clip_body_spec mark w e s :
  (∀ s, highlighted (mark s) = true) →
  (∀ s, mark (resetForeground s) = mark s) →
  highlight_is_clip w →
  editItem w = Some e →
  get_self e (doc w) = Some s →
  let w' := clip_body mark w in
  clipItem w' = Some e ∧
  get_self e (doc w') = Some (mark s) ∧
  (∀ c sc, clipItem w = Some c → c ≠ e → get_self c (doc w) = Some sc →
     get_self c (doc w') = Some (resetForeground sc)) ∧
  (∀ r, r ≠ e → clipItem w ≠ Some r → get_self r (doc w') = get_self r (doc w)) ∧
  highlight_is_clip w' ∧
  (∀ r s', get_self r (doc w') = Some s' → highlighted s' = true → r = e).
Proof.
  intros Hmark Hidem Hinv He Hs w'.
  pose proof (proj1 (highlight_is_clip_spec w) Hinv) as Hall. clear Hinv.
  rename Hall into Hinv.
  assert (∀ r, get_self r (doc w') =
    if decide (r = e) then Some (mark s)
    else if decide (clipItem w = Some r) then resetForeground <$> get_self r (doc w)
    else get_self r (doc w)) as Hself.
  { intros r. unfold w', clip_body.
    destruct (clipItem w) as [c|] eqn:Hc; simpl; rewrite He; simpl.
    - rewrite !get_self_update_self. repeat case_decide; simplify_eq/=;
        rewrite ?Hs; simpl; rewrite ?Hidem; try done.
    - rewrite get_self_update_self. repeat case_decide; simplify_eq/=;
        rewrite ?Hs; done. }
  assert (clipItem w' = Some e) as Hclip.
  { unfold w', clip_body. destruct (clipItem w); simpl; by rewrite He. }
  assert (∀ r s', get_self r (doc w') = Some s' → highlighted s' = true → r = e)
    as Hone.
  { intros r s' Hr Hh. rewrite Hself in Hr. case_decide; [done|].
    case_decide as Hcr.
    - destruct (get_self r (doc w)); simplify_eq/=.
    - destruct Hcr. by eapply Hinv. }
  split; [done|]. split; [by rewrite Hself, decide_True|].
  split; [|split; [|split; [|done]]].
  - intros c sc Hc Hne Hsc. rewrite Hself, decide_False, decide_True by done.
    by rewrite Hsc.
  - intros r Hne Hnc. by rewrite Hself, !decide_False.
  - apply highlight_is_clip_spec. intros r s' Hr Hh. rewrite Hclip. f_equal.
    symmetry. by eapply Hone.
Qed.

Lemma on_actionCopy_triggered_enabled w :
  actionCopy (enabled w) = true → on_actionCopy_triggered w = clip_body setCopy w.
Proof. unfold on_actionCopy_triggered. by intros ->. Qed.

Lemma on_actionCut_triggered_enabled w :
  actionCut (enabled w) = true → on_actionCut_triggered w = clip_body setCut w.
Proof. unfold on_actionCut_triggered. by intros ->. Qed.

(** C5, as the code has it. Copy and cut reset the foreground of the item
    that was the clip before, leaving its [cutSource] and [copySource] as
    they were, and mark the edited item; when every highlighted item was
    the clip item before, the edited item is the only highlighted item
    afterwards, and it is the clip item. *)
Theorem cut_copy_single_highlight (w : window) (e : ref) (s : SchemaItem) :
  highlight_is_clip w →
  editItem w = Some e →
  get_self e (doc w) = Some s →
  actionCopy (enabled w) = true →
  actionCut (enabled w) = true →
  clip_moved_to setCopy w (on_actionCopy_triggered w) e s ∧
  clip_moved_to setCut w (on_actionCut_triggered w) e s.
Proof.
  intros Hinv He Hs Hcopy Hcut.
  rewrite on_actionCopy_triggered_enabled, on_actionCut_triggered_enabled by done.
  split; by apply clip_body_spec.
Qed.

(** *** Paste of a cut item *)

Lemma delete_insert_same {A} (l : list A) i x : delete i (<[i:=x]> l) = delete i l.
Proof. revert i. induction l as [|a l IH]; intros [|i]; simpl; f_equal; auto. Qed.

Lemma delete_app_lt {A} (l k : list A) i :
  (i < length l)%nat → delete i (l ++ k) = delete i l ++ k.
Proof.
  revert i. induction l as [|a l IH]; intros [|i] Hi; simpl in *;
    try lia; f_equal; auto with lia.
Qed.

Lemma NoDup_not_in_delete {A} (l : list A) i x :
  NoDup l → l !! i = Some x → x ∉ delete i l.
Proof.
  intros Hnd Hi Hin. apply list_elem_of_lookup in Hin as [j Hj].
  rewrite list_lookup_delete in Hj. case_decide.
  - assert (i = j) by eauto using NoDup_lookup. lia.
  - assert (i = S j) by eauto using NoDup_lookup. lia.
Qed.

Lemma insert_app_last {A} (l : list A) x y : <[length l:=y]> (l ++ [x]) = l ++ [y].
Proof. induction l; simpl; f_equal; auto. Qed.

Lemma get_rows_update_self h c f m : get_rows h (update_self c f m) = get_rows h m.
Proof.
  destruct h as [|r]; [done|]. unfold get_rows, update_self, update_object. simpl.
  destruct (decide (c = r)) as [->|Hne].
  - rewrite list_lookup_alter_eq. by destruct (objects m !! r).
  - by rewrite list_lookup_alter_ne.
Qed.

Lemma get_parent_update_self r c f m :
  get_parent r (update_self c f m) = get_parent r m.
Proof.
  unfold get_parent, update_self, update_object. simpl.
  destruct (decide (c = r)) as [->|Hne].
  - rewrite list_lookup_alter_eq. by destruct (objects m !! r).
  - by rewrite list_lookup_alter_ne.
Qed.

Lemma objects_update_self_is_Some r c f m :
  is_Some (objects (update_self c f m) !! r) ↔ is_Some (objects m !! r).
Proof.
  unfold update_self, update_object. simpl.
  rewrite !lookup_lt_is_Some. by rewrite length_alter.
Qed.

(** [setChild] at [rowCount]: a new last row with the item. *)
Lemma setChild_append h c m :
  h ≠ Item c →
  get_parent c m = None →
  setChild h (rowCount h m) (Some c) m =
    set_parent c (Some h)
      (set_rows h (get_rows h m ++ [Some c])
         (set_rows h (get_rows h m ++ [None]) m)).
Proof.
  intros Hh Hp. unfold setChild, rowCount. simpl.
  rewrite decide_False by congruence. rewrite decide_False by lia.
  replace (Z.to_nat (Z.of_nat (length (get_rows h m)) + 1) - length (get_rows h m))%nat
    with 1%nat by lia.
  simpl. rewrite Nat2Z.id.
  rewrite lookup_app_r, Nat.sub_diag by done. simpl.
  by rewrite get_parent_set_rows, Hp, insert_app_last.
Qed.

Lemma removeRow_of_nat h i m :
  (i < length (get_rows h m))%nat →
  removeRow h (Z.of_nat i) m = set_rows h (delete i (get_rows h m)) m.
Proof.
  intros Hi. unfold removeRow, rowCount. rewrite decide_True by lia.
  by rewrite Nat2Z.id.
Qed.

(** C4, as the code has it. Pasting a cut item onto another item: the item
    leaves the rows of its former parent, becomes the last row of the
    target and has the target as parent; its foreground is reset, while its
    [cutSource] stays set; the window's clip item becomes [None]; the other
    items keep their rows, parents and attributes. *)
Theorem paste_cut_moves (w : window) (src tgt sp : ref) (i : nat)
    (s : SchemaItem) (limit : nat) :
  actionPaste (enabled w) = true →
  clipItem w = Some src →
  editItem w = Some tgt →
  get_self src (doc w) = Some s →
  cutSource s = true →
  indexFromItem src (doc w) = Some (Item sp, Z.of_nat i) →
  rows_attached (Item sp) (doc w) = true →
  is_Some (objects (doc w) !! tgt) →
  tgt ≠ src →
  let w' := on_actionPaste_triggered limit w in
  let m := doc w in
  let m' := doc w' in
  clipItem w' = None ∧
  get_parent src m' = Some (Item tgt) ∧
  get_rows (Item tgt) m' =
    (if decide (tgt = sp) then delete i (get_rows (Item tgt) m)
     else get_rows (Item tgt) m) ++ [Some src] ∧
  (tgt ≠ sp →
     get_rows (Item sp) m' = delete i (get_rows (Item sp) m) ∧
     Some src ∉ get_rows (Item sp) m') ∧
  get_self src m' = Some (resetForeground s) ∧
  (∀ h, h ≠ Item tgt → h ≠ Item sp → get_rows h m' = get_rows h m) ∧
  (∀ c, c ≠ src → get_parent c m' = get_parent c m ∧ get_self c m' = get_self c m).
Proof.
  intros Hen Hclip Hedit Hs Hcut Hix Hatt Htgt Hts w' m m'.
  destruct (indexFromItem_Some _ _ _ _ Hix) as (Hp & i' & Hi' & Hi).
  apply Nat2Z.inj in Hi'. subst i'. fold m in Hp, Hi, Hs, Htgt.
  destruct (rows_attached_spec _ _ Hatt) as [Hnd Hrows]. fold m in Hnd, Hrows.
  destruct (Hrows _ _ Hi) as (? & [= <-] & _ & Hsp).
  pose proof (get_parent_is_Some _ _ _ Hp) as Hso.
  pose proof (get_rows_lookup_is_Some _ _ _ _ Hi sp eq_refl) as Hspo.
  pose proof (lookup_lt_Some _ _ _ Hi) as Hli.
  set (l := get_rows (Item sp) m) in *.
  set (m1 := set_parent src None (set_rows (Item sp) (<[i:=None]> l) m)).
  assert (takeChild (Item sp) (Z.of_nat i) m = (Some src, m1)) as Ht1
    by by apply takeChild_Some.
  assert (∀ r, is_Some (objects m1 !! r) ↔ is_Some (objects m !! r)) as Ho1.
  { intros r. unfold m1.
    by rewrite objects_set_parent_is_Some, objects_set_rows_is_Some. }
  assert (get_rows (Item sp) m1 = <[i:=None]> l) as Hr1.
  { unfold m1. rewrite get_rows_set_parent, get_rows_set_rows; [done|].
    by intros r [= <-]. }
  assert (get_parent src m1 = None) as Hp1.
  { unfold m1. apply get_parent_set_parent. by apply objects_set_rows_is_Some. }
  set (lt := get_rows (Item tgt) m1).
  set (m2 := set_parent src (Some (Item tgt))
               (set_rows (Item tgt) (lt ++ [Some src])
                  (set_rows (Item tgt) (lt ++ [None]) m1))).
  assert (setChild (Item tgt) (rowCount (Item tgt) m1) (Some src) m1 = m2) as Hsc.
  { apply setChild_append; [congruence|done]. }
  assert (∀ r, is_Some (objects m2 !! r) ↔ is_Some (objects m !! r)) as Ho2.
  { intros r. unfold m2.
    by rewrite objects_set_parent_is_Some, !objects_set_rows_is_Some. }
  assert (get_rows (Item tgt) m2 = lt ++ [Some src]) as Hrt2.
  { unfold m2. rewrite get_rows_set_parent, get_rows_set_rows; [done|].
    intros r [= <-]. by apply objects_set_rows_is_Some, Ho1. }
  set (m3 := update_self src resetForeground m2).
  assert ((i < length (get_rows (Item sp) m3))%nat) as Hli3.
  { unfold m3. rewrite get_rows_update_self.
    destruct (decide (tgt = sp)) as [->|Hne].
    - rewrite Hrt2. unfold lt. rewrite Hr1, length_app, length_insert. lia.
    - unfold m2. rewrite get_rows_set_parent, !get_rows_set_rows_ne by congruence.
      by rewrite Hr1, length_insert. }
  set (m4 := set_rows (Item sp) (delete i (get_rows (Item sp) m3)) m3).
  assert (w' = emit_modified (enableActions (indexFromItem tgt m4)
                 (with_clipItem None (with_doc m4 w)))) as Hw'.
  { unfold w', on_actionPaste_triggered. rewrite Hen, Hclip, Hedit. simpl.
    rewrite Hix. fold m. rewrite Hs. simpl. rewrite Hcut.
    unfold public_parent. rewrite Hp, Ht1. simpl. rewrite Hsc. fold m3.
    by rewrite removeRow_of_nat. }
  assert (m' = m4) as ->.
  { unfold m'. rewrite Hw'. simpl. by rewrite doc_enableActions. }
  assert (get_rows (Item sp) m4 = delete i (get_rows (Item sp) m3)) as Hr4.
  { unfold m4. apply get_rows_set_rows. intros r [= <-]. unfold m3.
    by apply objects_update_self_is_Some, Ho2. }
  split. { rewrite Hw'. simpl. by rewrite clipItem_enableActions. }
  split.
  { unfold m4. rewrite get_parent_set_rows. unfold m3.
    rewrite get_parent_update_self. unfold m2. apply get_parent_set_parent.
    by rewrite !objects_set_rows_is_Some, Ho1. }
  split.
  { destruct (decide (tgt = sp)) as [->|Hne].
    - rewrite Hr4. unfold m3. rewrite get_rows_update_self, Hrt2.
      unfold lt. rewrite Hr1. rewrite delete_app_lt by by rewrite length_insert.
      by rewrite delete_insert_same.
    - unfold m4. rewrite get_rows_set_rows_ne by congruence.
      unfold m3. rewrite get_rows_update_self, Hrt2. unfold lt, m1.
      by rewrite get_rows_set_parent, get_rows_set_rows_ne by congruence. }
  split.
  { intros Hne.
    assert (get_rows (Item sp) m4 = delete i l) as ->.
    { rewrite Hr4. unfold m3. rewrite get_rows_update_self. unfold m2.
      rewrite get_rows_set_parent, !get_rows_set_rows_ne by congruence.
      by rewrite Hr1, delete_insert_same. }
    split; [done|]. by apply NoDup_not_in_delete. }
  split.
  { unfold m4. rewrite get_self_set_rows. unfold m3.
    rewrite get_self_update_self, decide_True by done. unfold m2.
    rewrite get_self_set_parent, !get_self_set_rows. unfold m1.
    by rewrite get_self_set_parent, get_self_set_rows, Hs. }
  split.
  { intros h Hh1 Hh2. unfold m4. rewrite get_rows_set_rows_ne by done.
    unfold m3. rewrite get_rows_update_self. unfold m2.
    rewrite get_rows_set_parent, !get_rows_set_rows_ne by done. unfold m1.
    by rewrite get_rows_set_parent, get_rows_set_rows_ne. }
  intros c Hc. split.
  - unfold m4. rewrite get_parent_set_rows. unfold m3.
    rewrite get_parent_update_self. unfold m2.
    rewrite get_parent_set_parent_ne, !get_parent_set_rows by done. unfold m1.
    by rewrite get_parent_set_parent_ne, get_parent_set_rows.
  - unfold m4. rewrite get_self_set_rows. unfold m3.
    rewrite get_self_update_self, decide_False by done. unfold m2.
    rewrite get_self_set_parent, !get_self_set_rows. unfold m1.
    by rewrite get_self_set_parent, get_self_set_rows.
Qed.

(** *** Delete *)


(** *** Rename propagation *)

Lemma dict_setitem_app key v w d1 d2 :
  key ∉ dict_keys d1 →
  dict_setitem key v (d1 ++ (key, w) :: d2) = d1 ++ (key, v) :: d2.
Proof.
  unfold dict_keys. induction d1 as [|[k x] d1 IH]; simpl; intros Hk.
  - by rewrite String.eqb_refl.
  - apply not_elem_of_cons in Hk as [Hne Hk].
    destruct (String.eqb k key) eqn:E; [by apply String.eqb_eq in E|].
    by rewrite IH.
Qed.

Lemma renamed_parameters_keys previous current d :
  dict_keys (renamed_parameters previous current d) = dict_keys d.
Proof.
  unfold dict_keys, renamed_parameters. induction d as [|[k v] d IH]; simpl;
    by f_equal.
Qed.

Lemma renamed_parameters_app previous current d1 d2 :
  renamed_parameters previous current (d1 ++ d2) =
  renamed_parameters previous current d1 ++ renamed_parameters previous current d2.
Proof. apply map_app. Qed.

(** The loop of [updateLines] over one dict does what the specification
    says: on a dict without repeated keys it rewrites exactly the entries
    whose value is the old name and counts them. *)
Lemma rewrite_lines_spec previous current parameters :
  dict_wf parameters →
  rewrite_lines previous current parameters =
    (renamed_parameters previous current parameters,
     line_count previous parameters).
Proof.
  unfold rewrite_lines, dict_wf.
  enough (∀ post pre n,
    NoDup (dict_keys (pre ++ post)) →
    foldl (λ '(d, modified) '(key, value),
             if py_eq_str value previous
             then (dict_setitem key (PyStr current) d, S modified)
             else (d, modified))
          (renamed_parameters previous current pre ++ post, n) post =
      (renamed_parameters previous current (pre ++ post),
       (n + line_count previous post)%nat)) as H.
  { intros Hnd. apply (H parameters [] 0%nat Hnd). }
  induction post as [|[k v] post IH]; intros pre n Hnd.
  - simpl. by rewrite !app_nil_r, Nat.add_0_r.
  - assert (k ∉ dict_keys (renamed_parameters previous current pre)) as Hk.
    { rewrite renamed_parameters_keys. unfold dict_keys in *.
      rewrite fmap_app in Hnd. apply NoDup_app in Hnd as (_ & Hnd & _).
      intros Hin. apply (Hnd _ Hin). simpl. left. }
    specialize (IH (pre ++ [(k, v)]) ). rewrite <- !app_assoc in IH. simpl in IH.
    rewrite renamed_parameters_app in IH. simpl in IH.
    rewrite <- app_assoc in IH. simpl in IH.
    cbn [foldl]. unfold line_count. rewrite filter_cons. simpl.
    destruct (py_eq_str v previous) eqn:E.
    + rewrite dict_setitem_app by done.
      rewrite decide_True by done. simpl.
      rewrite (IH (S n) Hnd). rewrite renamed_parameters_app. simpl. rewrite E.
      f_equal. unfold line_count. lia.
    + rewrite decide_False by (by rewrite not_true_iff_false).
      rewrite (IH n Hnd). rewrite renamed_parameters_app. simpl. by rewrite E.
Qed.

Lemma foldM_Ok_impl {A S} (f g : S → A → result S) l s r :
  (∀ s a r, a ∈ l → f s a = Ok r → g s a = Ok r) →
  foldM f l s = Ok r → foldM g l s = Ok r.
Proof.
  revert s. induction l as [|a l IH]; intros s Hfg; simpl; [done|].
  destruct (f s a) as [s'|e] eqn:Hf; simpl; [|done].
  rewrite (Hfg s a s') by (done || left). simpl.
  apply IH. intros s0 a0 r0 Hin. apply Hfg. by right.
Qed.

(** More nesting allowed, same descendants. *)
Lemma children_mono d d' h m cs :
  children d h m = Ok cs → (d ≤ d')%nat → children d' h m = Ok cs.
Proof.
  revert d' h cs. induction d as [|d IH]; intros d' h cs; simpl; [done|].
  intros H Hle. destruct d' as [|d']; [lia|]. simpl.
  eapply foldM_Ok_impl; [|exact H].
  intros acc [c|] r _; simpl; [|done].
  destruct (children d (Item c) m) as [cs'|e] eqn:Hc; simpl; [|done].
  by rewrite (IH d' _ _ Hc) by lia.
Qed.

(** More iterations allowed, same root. *)
Lemma root_mono k k' r m rt :
  root k r m = Some rt → (k ≤ k')%nat → root k' r m = Some rt.
Proof.
  revert k' r. induction k as [|k IH]; intros k' r; simpl.
  - destruct k'; simpl; by destruct (public_parent r m).
  - intros H Hle. destruct k' as [|k']; [lia|]. simpl.
    destruct (public_parent r m); [|done]. apply IH; [done|lia].
Qed.

Lemma get_parameters_update_self_ne c a f m :
  c ≠ a → get_parameters c (update_self a f m) = get_parameters c m.
Proof.
  intros Hne. unfold get_parameters.
  by rewrite get_self_update_self, decide_False.
Qed.

Lemma renamed_item_parameters previous current s ps :
  (match cls s with IndexItem _ p => Some p | _ => None end) = Some ps →
  renamed_item previous current s =
    with_parameters (renamed_parameters previous current ps) s.
Proof. unfold renamed_item. destruct (cls s); naive_solver. Qed.

Lemma renamed_item_no_parameters previous current s :
  (match cls s with IndexItem _ p => Some p | _ => None end) = None →
  renamed_item previous current s = s.
Proof. unfold renamed_item. by destruct (cls s). Qed.

(** The outer loop of [updateLines] over items that are all different. *)
Lemma updateLines_loop_spec previous current nodes m0 n0 m n :
  NoDup nodes →
  (∀ c ps, c ∈ nodes → get_parameters c m0 = Some ps → dict_wf ps) →
  foldl (updateLines_child previous current) (m0, n0) nodes = (m, n) →
  n = (n0 + sum_list (map (lines_of previous m0) nodes))%nat ∧
  (∀ c, get_self c m =
     (if bool_decide (c ∈ nodes) then renamed_item previous current else id)
       <$> get_self c m0) ∧
  (∀ h, get_rows h m = get_rows h m0) ∧
  (∀ c, get_parent c m = get_parent c m0).
Proof.
  revert m0 n0. induction nodes as [|a nodes IH]; intros m0 n0 Hnd Hwf;
    cbn [foldl map sum_list_with].
  { intros [= <- <-]. split; [lia|]. split; [|done].
    intros c. rewrite bool_decide_eq_false_2 by apply not_elem_of_nil.
    by destruct (get_self c m0). }
  apply NoDup_cons in Hnd as [Ha Hnd]. unfold updateLines_child at 2.
  destruct (get_parameters a m0) as [ps|] eqn:Hps.
  - rewrite rewrite_lines_spec by (eapply Hwf; [left|done]).
    intros Hfold. apply IH in Hfold as (Hn & Hself & Hrows & Hpar); [|done|].
    + split; [|split; [|split]].
      * rewrite Hn. unfold lines_of at 2. rewrite Hps. simpl.
        rewrite (map_ext_in (lines_of previous _) (lines_of previous m0)); [lia|].
        intros c Hc%list_elem_of_In. unfold lines_of.
        rewrite get_parameters_update_self_ne; [done|]. by intros ->.
      * intros c. rewrite Hself, get_self_update_self.
        destruct (decide (c = a)) as [->|Hca].
        -- rewrite (bool_decide_eq_false_2 _ Ha).
           rewrite bool_decide_eq_true_2 by left.
           unfold get_parameters in Hps.
           destruct (get_self a m0) as [s|]; [|done]. simpl in *.
           by rewrite (renamed_item_parameters _ _ _ _ Hps).
        -- rewrite (bool_decide_ext (c ∈ a :: nodes) (c ∈ nodes)); [done|].
           rewrite elem_of_cons. split; [by intros [?|?]|by right].
      * intros h. by rewrite Hrows, get_rows_update_self.
      * intros c. by rewrite Hpar, get_parent_update_self.
    + intros c ps' Hc. rewrite get_parameters_update_self_ne by (by intros ->).
      apply Hwf. by right.
  - intros Hfold. apply IH in Hfold as (Hn & Hself & Hrows & Hpar); [|done|].
    + split; [|split; [|done]].
      * rewrite Hn. unfold lines_of at 2. rewrite Hps. simpl. lia.
      * intros c. rewrite Hself. destruct (decide (c = a)) as [->|Hca].
        -- rewrite (bool_decide_eq_false_2 _ Ha).
           rewrite bool_decide_eq_true_2 by left.
           unfold get_parameters in Hps.
           destruct (get_self a m0) as [s|]; [|done]. simpl in *.
           by rewrite (renamed_item_no_parameters _ _ _ Hps).
        -- rewrite (bool_decide_ext (c ∈ a :: nodes) (c ∈ nodes)); [done|].
           rewrite elem_of_cons. split; [by intros [?|?]|by right].
    + intros c ps' Hc. apply Hwf. by right.
Qed.

Lemma lines_of_filter previous m item cs :
  sum_list (map (lines_of previous m)
    (filter (λ c, (bool_decide (c ≠ item)
                   && bool_decide (is_Some (get_parameters c m))) = true) cs)) =
  sum_list (map (lines_of previous m) (filter (λ c, c ≠ item) cs)).
Proof.
  induction cs as [|c cs IH]; [done|].
  destruct (decide (c ≠ item)) as [Hne|Heq].
  - rewrite (filter_cons_True (λ c, c ≠ item)) by done.
    destruct (get_parameters c m) as [ps|] eqn:Hps.
    + rewrite filter_cons_True.
      * cbn [map sum_list_with]. by rewrite IH.
      * rewrite (bool_decide_eq_true_2 _ Hne). simpl.
        apply bool_decide_eq_true_2. rewrite Hps. eauto.
    + rewrite filter_cons_False.
      * cbn [map sum_list_with].
        replace (lines_of previous m c) with 0%nat
          by (unfold lines_of; by rewrite Hps).
        by rewrite IH.
      * rewrite Hps, andb_comm. by simpl.
  - rewrite (filter_cons_False (λ c, c ≠ item)) by done.
    rewrite filter_cons_False; [done|].
    by rewrite (bool_decide_eq_false_2 _ Heq).
Qed.

(** With room for its loops, [updateLines] is its outer loop over the
    descendants of the root that pass the test. *)
Lemma updateLines_unfold w item rt cs k d limit previous current m n :
  root k item (doc w) = Some rt →
  children d (Item rt) (doc w) = Ok cs →
  (k ≤ limit)%nat →
  (d ≤ limit)%nat →
  foldl (updateLines_child previous current) (doc w, 0%nat)
    (filter (λ c, (bool_decide (c ≠ item)
                   && bool_decide (is_Some (get_parameters c (doc w)))) = true) cs)
    = (m, n) →
  updateLines limit (Some item) previous current w =
    Some (n, if decide (n = 0%nat) then with_doc m w
             else emit_modified (with_doc m w)).
Proof.
  intros Hroot Hch Hk Hd Hfold. unfold updateLines.
  rewrite (root_mono _ _ _ _ _ Hroot Hk). simpl.
  rewrite (children_mono _ _ _ _ _ Hch Hd). by rewrite Hfold.
Qed.

Lemma parameters_wf_spec m cs c ps :
  parameters_wf m cs = true → c ∈ cs → get_parameters c m = Some ps → dict_wf ps.
Proof.
  unfold parameters_wf. rewrite forallb_forall. intros Hwf Hc Hps.
  specialize (Hwf c (proj1 (list_elem_of_In _ _) Hc)).
  apply bool_decide_eq_true in Hwf. by rewrite Hps in Hwf.
Qed.

(** C7. On a root subtree whose items are all different and whose
    parameters are dicts, and with room for the loops, [updateLines]
    returns; in every descendant of the root other than the renamed item
    it rewrites to the new name exactly the entries whose value is the old
    name; it changes no other attribute, row or parent, nor the renamed
    item, nor any item outside the subtree; and the count it returns is the
    number of entries rewritten. *)
Theorem updateLines_rewrites_references (w : window) (item rt : ref)
    (cs : list ref) (k d limit : nat) (previous current : string) :
  root k item (doc w) = Some rt →
  children d (Item rt) (doc w) = Ok cs →
  NoDup cs →
  parameters_wf (doc w) cs = true →
  (k ≤ limit)%nat →
  (d ≤ limit)%nat →
  ∃ w',
    updateLines limit (Some item) previous current w =
      Some (sum_list (map (lines_of previous (doc w)) (filter (λ c, c ≠ item) cs)),
            w') ∧
    (∀ c, get_self c (doc w') =
       (if bool_decide (c ∈ cs ∧ c ≠ item)
        then renamed_item previous current else id) <$> get_self c (doc w)) ∧
    (∀ h, get_rows h (doc w') = get_rows h (doc w)) ∧
    (∀ c, get_parent c (doc w') = get_parent c (doc w)) ∧
    clipItem w' = clipItem w ∧
    editItem w' = editItem w.
Proof.
  intros Hroot Hch Hnd Hwf Hk Hd.
  set (nodes := filter (λ c, (bool_decide (c ≠ item)
        && bool_decide (is_Some (get_parameters c (doc w)))) = true) cs).
  destruct (foldl (updateLines_child previous current) (doc w, 0%nat) nodes)
    as [m n] eqn:Hfold.
  rewrite (updateLines_unfold _ _ _ _ _ _ _ _ _ _ _ Hroot Hch Hk Hd Hfold).
  apply updateLines_loop_spec in Hfold as (Hn & Hself & Hrows & Hpar).
  - eexists. split; [|split; [|split; [|split]]].
    + rewrite Hn. simpl. unfold nodes. rewrite lines_of_filter. reflexivity.
    + intros c. replace (doc _) with m by (by case_decide).
      rewrite Hself. unfold nodes.
      destruct (decide (c ∈ cs ∧ c ≠ item)) as [[Hc Hne]|Hnot].
      * rewrite (bool_decide_eq_true_2 (c ∈ cs ∧ c ≠ item)) by done.
        destruct (get_parameters c (doc w)) as [ps|] eqn:Hps.
        -- rewrite bool_decide_eq_true_2; [done|].
           apply list_elem_of_filter. split; [|done].
           rewrite (bool_decide_eq_true_2 _ Hne). simpl.
           apply bool_decide_eq_true_2. rewrite Hps. eauto.
        -- rewrite bool_decide_eq_false_2.
           { unfold get_parameters in Hps.
             destruct (get_self c (doc w)) as [s|]; [|done]. simpl in *.
             by rewrite renamed_item_no_parameters. }
           intros [Hp _]%list_elem_of_filter.
           apply andb_prop in Hp as [_ Hp]. apply bool_decide_eq_true in Hp.
           rewrite Hps in Hp. by destruct Hp.
      * rewrite (bool_decide_eq_false_2 (c ∈ cs ∧ c ≠ item)) by done.
        rewrite bool_decide_eq_false_2; [done|].
        intros [Hp Hc]%list_elem_of_filter. apply Hnot. split; [done|].
        apply andb_prop in Hp as [Hp _]. by apply bool_decide_eq_true in Hp.
    + intros h. replace (doc _) with m by (by case_decide). apply Hrows.
    + intros c. replace (doc _) with m by (by case_decide). apply Hpar.
    + by case_decide.
  - by apply NoDup_filter.
  - intros c ps [_ Hc]%list_elem_of_filter Hps. by eapply parameters_wf_spec.
Qed.



(** *** Auto-naming *)

(** The loop over the matches ends with the greatest of the start value
    and the successors of the offsets of the matches under the item's
    root. *)
Lemma suffix_loop_spec limit item m rt matches s :
  root limit item m = Some rt →
  Forall (λ c, is_Some (root limit c m)) matches →
  ∃ N, suffix_loop limit item m matches s = Some N ∧ s ≤ N ∧
    (∀ c name j, c ∈ matches → root limit c m = Some rt →
       get_text c m = Some name → name_offset name = Some j → j + 1 ≤ N) ∧
    (N = s ∨ ∃ c name, c ∈ matches ∧ root limit c m = Some rt ∧
       get_text c m = Some name ∧ name_offset name = Some (N - 1)).
Proof.
  intros Hroot Hall. revert s.
  induction Hall as [|mtch rest [rm Hrm] _ IH]; intros s.
  { exists s. simpl. split; [done|]. split; [lia|]. split; [|by left].
    by intros c name j Hc%elem_of_nil. }
  cbn [suffix_loop]. rewrite Hroot, Hrm. simpl.
  set (s1 := if decide (rt = rm) then _ else s).
  destruct (IH s1) as (N & HN & Hle & Hub & Hex).
  assert (s ≤ s1) as Hs1.
  { unfold s1. case_decide; [|lia]. destruct (_ ≫= _); lia. }
  exists N. split; [done|]. split; [lia|]. split.
  - intros c name j Hc Hrc Hname Hj. apply elem_of_cons in Hc as [->|Hc].
    + assert (j + 1 ≤ s1); [|lia]. unfold s1.
      rewrite Hrm in Hrc. injection Hrc as ->. rewrite decide_True by done.
      rewrite Hname. simpl. rewrite Hj. lia.
    + by eapply Hub.
  - destruct Hex as [->|(c & name & Hc & Hrest)].
    + unfold s1. case_decide as Heq; [|by left].
      destruct (get_text mtch m ≫= name_offset) as [j|] eqn:Hj; [|by left].
      destruct (decide (j + 1 ≤ s)).
      * left. lia.
      * right. destruct (get_text mtch m) as [name|] eqn:Hname; [|done].
        simpl in Hj. exists mtch, name. split; [left|].
        split; [by rewrite Hrm, Heq|]. split; [done|].
        rewrite Hj. f_equal. lia.
    + right. exists c, name. split; [by right|done].
Qed.

(** Setting the text of the name line edit names the edited item. *)
Lemma indexName_setText_spec w item rt cs k d limit txt :
  editItem w = Some item →
  get_text item (doc w) = Some (indexName w) →
  root k item (doc w) = Some rt →
  children d (Item rt) (doc w) = Ok cs →
  NoDup cs →
  parameters_wf (doc w) cs = true →
  (k ≤ limit)%nat →
  (d ≤ limit)%nat →
  ∃ w', indexName_setText limit txt w = Some w' ∧
    indexName w' = txt ∧ get_text item (doc w') = Some txt.
Proof.
  intros Hedit Htext Hroot Hch Hnd Hwf Hk Hd. unfold indexName_setText.
  case_decide as Heq; [subst; eauto|].
  destruct (foldl (updateLines_child (indexName w) txt) (doc w, 0%nat)
              (filter (λ c, (bool_decide (c ≠ item)
                 && bool_decide (is_Some (get_parameters c (doc w)))) = true) cs))
    as [m n] eqn:Hfold.
  pose proof (updateLines_unfold _ _ _ _ _ _ _ _ _ _ _ Hroot Hch Hk Hd Hfold)
    as Hupd.
  apply updateLines_loop_spec in Hfold as (_ & Hself & _ & _);
    [|by apply NoDup_filter|].
  2: { intros c ps [_ Hc]%list_elem_of_filter Hps. by eapply parameters_wf_spec. }
  unfold on_indexName_textChanged. rewrite Hedit, Hupd. simpl.
  assert (is_Some (get_self item m)) as [s1 Hs1].
  { rewrite Hself. unfold get_text in Htext.
    destruct (get_self item (doc w)); [by eexists|done]. }
  replace (editItem (if decide (n = 0%nat) then with_doc m w
                     else emit_modified (with_doc m w)))
    with (Some item) by (by case_decide).
  eexists. split; [done|].
  split; [by repeat case_decide|].
  unfold get_text.
  replace (doc _) with (update_self item (setText txt) m)
    by (by repeat case_decide).
  by rewrite get_self_update_self, decide_True, Hs1.
Qed.

(** C8, as the code has it. With the index name line holding the default
    text, nothing, or a text that starts with the previous type name and a
    dash, [maybeChangeIndexName] names the edited item [typeName-N]; [N] is
    at least 1, exceeds the offset of every item under the same root whose
    text starts with the type name, case ignored, and whose second part
    between dashes reads as an integer, and is 1 or one more than such an
    offset. *)
Theorem auto_name_next_suffix (w : window) (item rt : ref) (previous typeName : string)
    (all cs : list ref) (k d limit : nat) :
  editItem w = Some item →
  get_text item (doc w) = Some (indexName w) →
  get_typeName item (doc w) = Some typeName →
  (indexName w = defaultText ∨ indexName w = "" ∨
   startswith (String.append previous "-") (indexName w) = true) →
  children d InvisibleRoot (doc w) = Ok all →
  Forall (λ c, is_Some (root k c (doc w))) all →
  root k item (doc w) = Some rt →
  children d (Item rt) (doc w) = Ok cs →
  NoDup cs →
  parameters_wf (doc w) cs = true →
  (k ≤ limit)%nat →
  (d ≤ limit)%nat →
  ∃ w' N,
    maybeChangeIndexName limit item previous w = Some w' ∧
    indexName w' = String.append typeName (String.append "-" (str_of_int N)) ∧
    get_text item (doc w') =
      Some (String.append typeName (String.append "-" (str_of_int N))) ∧
    1 ≤ N ∧
    (∀ c name j,
       c ∈ all → root k c (doc w) = Some rt → get_text c (doc w) = Some name →
       starts_with_ignoring_case typeName name = true →
       name_offset name = Some j → j + 1 ≤ N) ∧
    (N = 1 ∨
     ∃ c name,
       c ∈ all ∧ root k c (doc w) = Some rt ∧ get_text c (doc w) = Some name ∧
       starts_with_ignoring_case typeName name = true ∧
       name_offset name = Some (N - 1)).
Proof.
  intros Hedit Htext Hty Hcur Hall Hroots Hroot Hch Hnd Hwf Hk Hd.
  set (matches := filter (λ c, from_option (starts_with_ignoring_case typeName)
                                 false (get_text c (doc w)) = true) all).
  assert (findItems limit typeName (doc w) = Some matches) as Hfind.
  { unfold findItems. by rewrite (children_mono _ _ _ _ _ Hall Hd). }
  assert (∀ c r, c ∈ all → root k c (doc w) = Some r →
            root limit c (doc w) = Some r) as Hup.
  { intros c r _ Hr. by eapply root_mono. }
  assert (∀ c r, c ∈ all → root limit c (doc w) = Some r →
            root k c (doc w) = Some r) as Hdown.
  { intros c r Hc Hr. rewrite Forall_forall in Hroots.
    destruct (Hroots c Hc) as [r' Hr']. rewrite Hr'.
    rewrite (root_mono _ _ _ _ _ Hr' Hk) in Hr. done. }
  destruct (suffix_loop_spec limit item (doc w) rt matches 1) as
    (N & HN & Hle & Hub & Hex).
  { by eapply root_mono. }
  { apply Forall_forall. intros c [_ Hc]%list_elem_of_filter.
    rewrite Forall_forall in Hroots. destruct (Hroots c Hc) as [r Hr].
    exists r. by eapply root_mono. }
  destruct (indexName_setText_spec w item rt cs k d limit
              (String.append typeName (String.append "-" (str_of_int N)))
              Hedit Htext Hroot Hch Hnd Hwf Hk Hd) as (w1 & Hset & Hname & Htxt).
  exists (emit_modified w1), N. split; [|split; [done|split; [done|split; [done|split]]]].
  - unfold maybeChangeIndexName.
    assert (bool_decide (indexName w ∈ [defaultText; ""])
            || startswith (String.append previous "-") (indexName w) = true) as ->.
    { destruct Hcur as [H|[H|H]]; rewrite H.
      - by rewrite bool_decide_eq_true_2 by left.
      - rewrite bool_decide_eq_true_2; [done|]. right. left.
      - apply orb_true_r. }
    rewrite Hty. simpl. rewrite Hfind. simpl. rewrite HN. simpl.
    by rewrite Hset.
  - intros c name j Hc Hr Hn Hpre Hj. eapply (Hub c name j); [|by eapply Hup|done..].
    apply list_elem_of_filter. split; [|done]. by rewrite Hn.
  - destruct Hex as [->|(c & name & [Hp Hc]%list_elem_of_filter & Hr & Hn & Hj)];
      [by left|right].
    exists c, name. split; [done|]. split; [by apply Hdown|]. split; [done|].
    split; [|done]. by rewrite Hn in Hp.
Qed.

(** *** Where the code departs from the specification *)

(** C2 at [X], which holds [V], which holds [U]: the clone of [X] holds a
    clone of [V] that holds two clones of [U]. [IndexItem.clone] already
    clones the children of [V], and [deepClone] then clones them again. *)
Example clone_duplicates_grandchildren :
  tree_of 10 4%nat sample_doc =
    Some (Schema.Node (new_item "X" (IndexItem "SMA" [("periods", PyInt 9)]))
           [Schema.Node (new_item "V" (IndexItem "EMA" [("in", PyStr "U")]))
              [Schema.Node (new_item "U" (IndexItem "EMA" [])) []]]) ∧
  (match clone 10 4%nat sample_doc with
   | Ok (c, m) => tree_of 10 c m
   | Raise _ => None
   end) =
    Some (Schema.Node (new_item "X" (IndexItem "SMA" [("periods", PyInt 9)]))
           [Schema.Node (new_item "V" (IndexItem "EMA" [("in", PyStr "U")]))
              [Schema.Node (new_item "U" (IndexItem "EMA" [])) [];
               Schema.Node (new_item "U" (IndexItem "EMA" [])) []]]).
Proof. split; vm_compute; reflexivity. Qed.

(** C5 as stated fails after two copies: [bid] and [ask] both carry
    [copySource]. *)
Lemma two_copies_two_flags :
  items_where flagged (doc two_copies) = [2%nat; 3%nat] ∧
  ¬ (length (items_where flagged (doc two_copies)) ≤ 1)%nat.
Proof. split; [vm_compute; reflexivity|]. vm_compute. lia. Qed.

(** C4 as stated fails after cut and paste: [X] is moved under [ask] and
    the clip item is [None], but [X] still carries [cutSource]. *)
Lemma paste_keeps_cutSource :
  get_rows (Item 3%nat) (doc cut_and_paste) = [Some 4%nat] ∧
  clipItem cut_and_paste = None ∧
  cutSource <$> get_self 4%nat (doc cut_and_paste) = Some true.
Proof. split; [|split]; vm_compute; reflexivity. Qed.


(** C8 as stated fails next to an index named [FooBar-7]: no item is named
    [Foo-k], so the specification's name is [Foo-1], and the code's is
    [Foo-8]. *)
Lemma auto_name_counts_longer_names :
  spec_auto_name "Foo" ["AAPL"; "bid"; "FooBar-7"; "Unknown"] = "Foo-1" ∧
  indexName <$> maybeChangeIndexName 10 3%nat "Unknown" retyped_after_FooBar
    = Some "Foo-8" ∧
  (maybeChangeIndexName 10 3%nat "Unknown" retyped_after_FooBar
     ≫= λ w, get_text 3%nat (doc w)) = Some "Foo-8".
Proof. split; [|split]; vm_compute; reflexivity. Qed.

(** C3. An item of class [parent] accepts a child of class [child] exactly
    for the pairs ticker-field, field-index and index-index; a callable
    accepts nothing; and the rule of the base class, which stands for the
    root through [rootTypes], accepts exactly callables and tickers. *)
Theorem insertion_legality (parent child : ItemType) :
  canInsert parent [child] = true ↔
  (parent, child) ∈ [(SchemaItemT, CallableItemT); (SchemaItemT, TickerItemT);
                     (TickerItemT, FieldItemT); (FieldItemT, IndexItemT);
                     (IndexItemT, IndexItemT)].
Proof.
  rewrite <- (bool_decide_eq_true (_ ∈ _)).
  by destruct parent, child.
Qed.

(** The boundary case rests on the disabled action: [moveItem] itself,
    entered for the first row upwards or the last row downwards, would
    empty the item's row or add one. *)
Remark moveItem_relies_on_enableActions :
  actionMoveUp (enabled (click 2%nat sample_window)) = false ∧
  actionMoveDown (enabled (click 3%nat sample_window)) = false ∧
  get_rows (Item 1%nat) (doc (moveItem 2%nat (-1) (click 2%nat sample_window))) =
    [None; Some 3%nat] ∧
  get_rows (Item 1%nat) (doc (moveItem 3%nat 1 (click 3%nat sample_window))) =
    [Some 2%nat; None; Some 3%nat].
Proof. split; [|split; [|split]]; vm_compute; reflexivity. Qed.

(** *** The theorems at the sample documents *)


Lemma cut_copy_single_highlight_witness :
  let w := click 3%nat (on_actionCopy_triggered (click 2%nat sample_window)) in
  let s := new_item "ask" (FieldItem (PyInt 2)) in
  clip_moved_to setCopy w (on_actionCopy_triggered w) 3%nat s ∧
  clip_moved_to setCut w (on_actionCut_triggered w) 3%nat s.
Proof.
  apply (cut_copy_single_highlight
           (click 3%nat (on_actionCopy_triggered (click 2%nat sample_window)))
           3%nat (new_item "ask" (FieldItem (PyInt 2))));
    [|vm_compute; reflexivity..].
  refine (bool_decide_unpack _ _). vm_compute. exact I.
Defined.

Lemma paste_cut_moves_witness :
  clipItem cut_and_paste = None ∧
  get_parent 4%nat (doc cut_and_paste) = Some (Item 3%nat) ∧
  get_rows (Item 3%nat) (doc cut_and_paste) = [Some 4%nat] ∧
  get_rows (Item 2%nat) (doc cut_and_paste) = [Some 7%nat] ∧
  foreground <$> get_self 4%nat (doc cut_and_paste) = Some BrushPaletteText.
Proof.
  destruct (paste_cut_moves cut_X_selected_ask 4%nat 3%nat 2%nat 0%nat
              (setCut (new_item "X" (IndexItem "SMA" [("periods", PyInt 9)])))
              10%nat)
    as (Hclip & Hparent & Hrows & Hformer & Hself & _);
    [vm_compute; reflexivity..| |done|].
  { vm_compute. eauto. }
  split; [exact Hclip|]. split; [exact Hparent|].
  split; [unfold cut_and_paste; rewrite Hrows; vm_compute; reflexivity|].
  split.
  - destruct Hformer as [Hf _]; [done|].
    unfold cut_and_paste. rewrite Hf. vm_compute. reflexivity.
  - unfold cut_and_paste. rewrite Hself. reflexivity.
Defined.


(** Renaming [X] to [Y] in the sample document: the one reference, in
    [KAMA-3], follows, and the count is 1. *)
Lemma updateLines_rewrites_references_witness :
  ∃ w', updateLines 10 (Some 4%nat) "X" "Y" (click 4%nat sample_window) =
          Some (1%nat, w') ∧
        get_parameters 7%nat (doc w') = Some [("in", PyStr "Y"); ("n", PyInt 3)].
Proof.
  destruct (updateLines_rewrites_references (click 4%nat sample_window)
              4%nat 1%nat [2; 4; 5; 6; 7; 3]%nat 10%nat 10%nat 10%nat "X" "Y")
    as (w' & Hupd & Hself & _); [vm_compute; reflexivity..| | | | |].
  { refine (bool_decide_unpack _ _). vm_compute. exact I. }
  { vm_compute. reflexivity. }
  { lia. }
  { lia. }
  exists w'. split.
  - rewrite Hupd. reflexivity.
  - unfold get_parameters. rewrite Hself. vm_compute. reflexivity.
Defined.

(** Retyping to [Foo] next to [Foo-1] and [Foo-3] gives [Foo-4]. *)
Lemma auto_name_next_suffix_witness :
  ∃ w', maybeChangeIndexName 10 4%nat "Unknown" retyped_after_1_and_3 = Some w' ∧
        indexName w' = "Foo-4" ∧
        get_text 4%nat (doc w') = Some "Foo-4".
Proof.
  destruct (auto_name_next_suffix retyped_after_1_and_3 4%nat 0%nat
              "Unknown" "Foo" [0; 1; 2; 3; 4]%nat [1; 2; 3; 4]%nat
              10%nat 10%nat 10%nat)
    as (w' & N & Hname & _); [vm_compute; reflexivity..| | | | | | | | | |].
  { left. vm_compute. reflexivity. }
  { vm_compute. reflexivity. }
  { refine (bool_decide_unpack _ _). vm_compute. exact I. }
  { vm_compute. reflexivity. }
  { vm_compute. reflexivity. }
  { refine (bool_decide_unpack _ _). vm_compute. exact I. }
  { vm_compute. reflexivity. }
  { lia. }
  { lia. }
  exists w'. split; [exact Hname|].
  vm_compute in Hname. injection Hname as <-. split; vm_compute; reflexivity.
Defined.

End DesignerFacts.

(* ===================================================================== *)
(** * Further properties of saving and loading *)

Module SchemaLaws.
Import Schema SchemaFacts.













Lemma forallb_fmap {A B} (p : B → bool) (f : A → B) l :
  forallb p (map f l) = forallb (λ a, p (f a)) l.
Proof. induction l; simpl; by f_equal. Qed.

Lemma max_ints_spec vs :
  vs ≠ [] → forallb is_int vs = true →
  ∃ m, max_ints vs = Some m ∧ ∀ k, PyInt k ∈ vs → k ≤ m.
Proof.
  induction vs as [|v vs IH]; [done|]. intros _ [Hv Hvs]%andb_prop.
  destruct v as [z| | | |]; try done. destruct vs as [|v' vs].
  - exists z. split; [done|]. intros k [[= ->]|[]%elem_of_nil]%elem_of_cons. lia.
  - destruct IH as (m & Hm & Hle); [done|done|].
    exists (Z.max z m). split.
    + change (max_ints (PyInt z :: v' :: vs)) with (Z.max z <$> max_ints (v' :: vs)).
      by rewrite Hm.
    + intros k [[= ->]|Hk]%elem_of_cons; [lia|]. specialize (Hle k Hk). lia.
Qed.

(** X4. Inserting a ticker at a root whose ticker ids are all integers appends
    a ticker named by the default text, without rows, whose id is greater
    than the id of every ticker already there, hence used by none. *)
Theorem inserted_tickerId_is_fresh (w : window) :
  forallb (λ it, is_int (getattr_tickerId it)) (model w) = true →
  ∃ n, on_actionInsertTicker_triggered w =
         Some (set_model (model w ++ [new_ticker n]) w) ∧
       ∀ it k, it ∈ model w → cls (self_of it) = TickerItem k →
               ∃ z, tickerId k = PyInt z ∧ z < n.
Proof.
  intros Hints. unfold on_actionInsertTicker_triggered.
  destruct (model w) as [|it0 items] eqn:Hmodel.
  { exists 1. split; [|by intros it k []%elem_of_nil].
    cbn. by rewrite Hmodel. }
  destruct (max_ints_spec (map getattr_tickerId (it0 :: items)))
    as (m & Hm & Hle); [done|by rewrite forallb_fmap| ].
  exists (1 + m). rewrite Hm. split; [cbn; by rewrite Hmodel|].
  intros it k Hit Hk.
  assert (getattr_tickerId it ∈ map getattr_tickerId (it0 :: items)) as Hin.
  { apply list_elem_of_fmap. eauto. }
  rewrite forallb_forall in Hints.
  specialize (Hints it (proj1 (list_elem_of_In _ _) Hit)).
  unfold getattr_tickerId in Hin, Hints. rewrite Hk in Hin, Hints.
  destruct (tickerId k) as [z| | | |] eqn:Hz; try done.
  exists z. split; [done|]. specialize (Hle z Hin). lia.
Qed.

Lemma inserted_tickerId_is_fresh_witness :
  ∃ n, on_actionInsertTicker_triggered sample =
         Some (set_model (model sample ++ [new_ticker n]) sample) ∧
       ∀ it k, it ∈ model sample → cls (self_of it) = TickerItem k →
               ∃ z, tickerId k = PyInt z ∧ z < n.
Proof. apply (inserted_tickerId_is_fresh sample). reflexivity. Defined.



End SchemaLaws.

(* ===================================================================== *)
(** * Further properties of the editing actions *)

Module DesignerLaws.
Import Designer DesignerFacts.

(** *** Splitting names *)

Lemma str_split_cons sep s : ∃ h t, str_split sep s = h :: t.
Proof.
  induction s as [|c s (h & t & IH)]; simpl; [eauto|].
  destruct (Ascii.eqb c sep); [eauto|]. rewrite IH. eauto.
Qed.

(** Splitting a string at a character loses nothing: there is one part
    more than occurrences of the character, no part holds the character,
    and joining the parts with it gives the string back. *)
Theorem str_split_join (sep : ascii) (s : string) :
  str_join sep (str_split sep s) = s ∧
  length (str_split sep s) = S (str_count sep s) ∧
  Forall (λ part, str_count sep part = 0%nat) (str_split sep s).
Proof.
  induction s as [|c s (IHj & IHl & IHp)]; simpl.
  { split; [done|]. split; [done|]. by constructor. }
  destruct (str_split_cons sep s) as (h & t & Hs). rewrite Hs in *.
  destruct (Ascii.eqb c sep) eqn:Hc.
  - split; [|split].
    + change (str_join sep ("" :: h :: t))
        with (String.append "" (String sep (str_join sep (h :: t)))).
      rewrite IHj. apply Ascii.eqb_eq in Hc as ->. done.
    + simpl in *. lia.
    + by constructor.
  - split; [|split].
    + rewrite <- IHj. destruct t; [done|].
      change (str_join sep (String c h :: s0 :: t))
        with (String.append (String c h) (String sep (str_join sep (s0 :: t)))).
      done.
    + simpl in *. lia.
    + inversion_clear IHp. constructor; [|done]. simpl. by rewrite Hc.
Qed.

(** A name without a dash has no second part, so it gives no offset. *)
Lemma name_offset_no_dash name :
  str_count "-" name = 0%nat → name_offset name = None.
Proof.
  intros H. unfold name_offset.
  destruct (str_split_join "-" name) as (_ & Hlen & _). rewrite H in Hlen.
  by destruct (str_split "-" name) as [|? [|? ?]].
Qed.

(** *** Renaming twice *)

Lemma py_eq_str_true v s : py_eq_str v s = true ↔ v = PyStr s.
Proof.
  destruct v; simpl; try (split; [done|by intros [=]]).
  rewrite String.eqb_eq. split; [by intros ->|by intros [= ->]].
Qed.

Lemma line_count_zero previous d :
  line_count previous d = 0%nat ↔ Forall (λ kv, py_eq_str kv.2 previous = false) d.
Proof.
  unfold line_count. induction d as [|[k v] d IH]; [split; [constructor|done]|].
  destruct (py_eq_str v previous) eqn:E.
  - rewrite filter_cons_True by done. simpl. split; [done|].
    intros HF. inversion HF as [|?? Hv ?]. simpl in Hv. congruence.
  - rewrite filter_cons_False by (simpl; by rewrite E).
    rewrite IH. split; [by constructor|by inversion 1].
Qed.

Lemma renamed_parameters_none previous current d :
  line_count previous d = 0%nat → renamed_parameters previous current d = d.
Proof.
  rewrite line_count_zero. unfold renamed_parameters.
  induction 1 as [|[k v] d Hv _ IH]; simpl in *; [done|]. by rewrite Hv, IH.
Qed.

Lemma renamed_parameters_settled previous current d :
  current ≠ previous →
  line_count previous (renamed_parameters previous current d) = 0%nat.
Proof.
  intros Hne. apply line_count_zero. unfold renamed_parameters.
  induction d as [|[k v] d IH]; simpl; constructor; [|done]. simpl.
  destruct (py_eq_str v previous) eqn:E; [|done]. simpl.
  by apply String.eqb_neq.
Qed.

Lemma renamed_parameters_back previous current d :
  line_count current d = 0%nat →
  renamed_parameters current previous (renamed_parameters previous current d) = d.
Proof.
  rewrite line_count_zero. unfold renamed_parameters.
  induction 1 as [|[k v] d Hv _ IH]; simpl in *; [done|]. rewrite IH. f_equal.
  destruct (py_eq_str v previous) eqn:E.
  - apply py_eq_str_true in E as ->. simpl. by rewrite String.eqb_refl.
  - by rewrite Hv.
Qed.

Lemma line_count_renamed previous current d :
  line_count current d = 0%nat →
  line_count current (renamed_parameters previous current d) =
  line_count previous d.
Proof.
  rewrite line_count_zero. unfold line_count, renamed_parameters.
  induction 1 as [|[k v] d Hv _ IH]; simpl in *; [done|].
  destruct (py_eq_str v previous) eqn:E.
  - rewrite !filter_cons_True by (simpl; by rewrite ?String.eqb_refl).
    simpl. by rewrite IH.
  - by rewrite !filter_cons_False by (simpl; by rewrite ?Hv, ?E).
Qed.

(** X6. After the loop of [updateLines] over a dict no entry refers to the old
    name any more, the dict has the keys it had, and running the loop
    again with the same names changes nothing and counts nothing. *)
Theorem rewrite_lines_settles (previous current : string) (parameters : dict) :
  dict_wf parameters →
  current ≠ previous →
  let d := (rewrite_lines previous current parameters).1 in
  dict_keys d = dict_keys parameters ∧
  line_count previous d = 0%nat ∧
  rewrite_lines previous current d = (d, 0%nat).
Proof.
  intros Hwf Hne d. unfold d. rewrite rewrite_lines_spec by done. simpl.
  split; [apply renamed_parameters_keys|].
  split; [by apply renamed_parameters_settled|].
  rewrite rewrite_lines_spec
    by (unfold dict_wf; by rewrite renamed_parameters_keys).
  rewrite renamed_parameters_settled by done.
  by rewrite renamed_parameters_none by (by apply renamed_parameters_settled).
Qed.

Lemma rewrite_lines_settles_witness :
  let d := (rewrite_lines "X" "Y" [("in", PyStr "X"); ("n", PyInt 3)]).1 in
  dict_keys d = dict_keys [("in", PyStr "X"); ("n", PyInt 3)] ∧
  line_count "X" d = 0%nat ∧
  rewrite_lines "X" "Y" d = (d, 0%nat).
Proof.
  apply (rewrite_lines_settles "X" "Y" [("in", PyStr "X"); ("n", PyInt 3)]).
  - refine (bool_decide_unpack _ _). vm_compute. exact I.
  - discriminate.
Defined.

(** X7. Renaming to a name that no entry of the dict referred to can be undone:
    the loop run back from the new name to the old one restores the dict,
    and counts the same entries. *)
Theorem rewrite_lines_back (previous current : string) (parameters : dict) :
  dict_wf parameters →
  line_count current parameters = 0%nat →
  let '(d, n) := rewrite_lines previous current parameters in
  rewrite_lines current previous d = (parameters, n).
Proof.
  intros Hwf Hfree. rewrite rewrite_lines_spec by done.
  rewrite rewrite_lines_spec
    by (unfold dict_wf; by rewrite renamed_parameters_keys).
  by rewrite renamed_parameters_back, line_count_renamed.
Qed.

Lemma rewrite_lines_back_witness :
  let '(d, n) := rewrite_lines "X" "Y" [("in", PyStr "X"); ("n", PyInt 3)] in
  rewrite_lines "Y" "X" d = ([("in", PyStr "X"); ("n", PyInt 3)], n).
Proof.
  apply (rewrite_lines_back "X" "Y" [("in", PyStr "X"); ("n", PyInt 3)]).
  - refine (bool_decide_unpack _ _). vm_compute. exact I.
  - reflexivity.
Defined.

(** *** New items *)

Lemma alloc_old s m c :
  (c < length (objects m))%nat →
  objects (alloc s m).2 !! c = objects m !! c.
Proof. intros Hc. simpl. by rewrite lookup_app_l. Qed.

Lemma alloc_new s m :
  objects (alloc s m).2 !! length (objects m) = Some (MkObject s [] None).
Proof. simpl. by rewrite list_lookup_middle. Qed.

Lemma appendRow_attach h c m :
  get_parent c m = None →
  appendRow h c m = set_parent c (Some h) (set_rows h (get_rows h m ++ [Some c]) m).
Proof. unfold appendRow. by intros ->. Qed.

(** A new item appended to an item [e] of the store. *)
Lemma append_new_item s e m :
  is_Some (objects m !! e) →
  inserted_under s e m (appendRow (Item e) (length (objects m)) (alloc s m).2).
Proof.
  intros He. unfold inserted_under. cbv zeta.
  pose proof (proj1 (lookup_lt_is_Some _ _) He) as Hlt.
  set (item := length (objects m)) in *.
  assert (e ≠ item) as Hne by lia.
  set (m1 := (alloc s m).2) in *.
  assert (objects m1 !! item = Some (MkObject s [] None)) as Hnew
    by apply alloc_new.
  assert (get_parent item m1 = None) as Hp.
  { unfold get_parent. by rewrite Hnew. }
  assert (∀ c, c ≠ item → objects m1 !! c = objects m !! c) as Hold.
  { intros c Hc. destruct (decide (c < item)%nat) as [Hl|Hl].
    - by apply alloc_old.
    - unfold m1. simpl. rewrite !lookup_ge_None_2; [done|fold item; lia|].
      rewrite length_app. simpl. fold item. lia. }
  assert (∀ h', h' ≠ Item item → get_rows h' m1 = get_rows h' m) as Hrows.
  { intros [|c] Hc; [done|]. unfold get_rows. rewrite Hold; [done|congruence]. }
  assert (is_Some (objects m1 !! e)) as He1 by (by rewrite Hold).
  assert (is_Some (objects m1 !! item)) as Hi1 by (rewrite Hnew; eauto).
  rewrite appendRow_attach by done.
  split; [|split; [|split; [|split; [|split]]]].
  - rewrite get_rows_set_parent, get_rows_set_rows by (by intros r [= <-]).
    rewrite Hrows; [done|congruence].
  - rewrite get_self_set_parent, get_self_set_rows. unfold get_self.
    by rewrite Hnew.
  - apply get_parent_set_parent. by apply objects_set_rows_is_Some.
  - rewrite get_rows_set_parent, get_rows_set_rows_ne by congruence.
    unfold get_rows. by rewrite Hnew.
  - intros c Hc. rewrite get_self_set_parent, get_self_set_rows.
    rewrite get_parent_set_parent_ne, get_parent_set_rows by done.
    unfold get_self, get_parent. by rewrite Hold.
  - intros h' H1 H2. rewrite get_rows_set_parent, get_rows_set_rows_ne by done.
    by apply Hrows.
Qed.

(** What [enableActions] stores for the two insert actions of an attached
    item of class [t]. *)
Lemma enableActions_insert_flags w e h i t :
  indexFromItem e (doc w) = Some (h, Z.of_nat i) →
  get_type e (doc w) = Some t →
  let a := enabled (enableActions (Some (h, Z.of_nat i)) w) in
  actionInsertField a = canInsert t [FieldItemT] ∧
  actionInsertIndex a = canInsert t [IndexItemT] ∧
  actionCut a = canCut t ∧ actionCopy a = canCopy t.
Proof.
  intros Hix Ht. destruct (indexFromItem_Some _ _ _ _ Hix) as (Hp & i' & Hi' & Hi).
  apply Nat2Z.inj in Hi'. subst i'.
  unfold enableActions. cbn [itemFromIndex mbind option_bind].
  rewrite child_of_nat, Hi. cbn [mjoin option_join mbind option_bind].
  rewrite Ht. by cbn.
Qed.

(** X8. With the actions as [enableActions] left them for the edited item,
    the insert actions keep the tree within the legal pairs: insert field
    adds a default field as last row of a ticker and does nothing on any
    other item; insert index adds a default index as last row of a field
    or an index and does nothing on a ticker or a callable. *)
Theorem insert_keeps_structure (w : window) (e : ref) (h : holder) (i : nat)
    (t : ItemType) :
  editItem w = Some e →
  indexFromItem e (doc w) = Some (h, Z.of_nat i) →
  get_type e (doc w) = Some t →
  enabled (enableActions (Some (h, Z.of_nat i)) w) = enabled w →
  let wf := trigger actionInsertField on_actionInsertField_triggered w in
  let wi := trigger actionInsertIndex on_actionInsertIndex_triggered w in
  (if decide (t = TickerItemT)
   then inserted_under new_field e (doc w) (doc wf)
   else wf = w) ∧
  (if decide (t = FieldItemT ∨ t = IndexItemT)
   then inserted_under new_index e (doc w) (doc wi)
   else wi = w).
Proof.
  intros Hedit Hix Ht Hen wf wi.
  destruct (enableActions_insert_flags w e h i t Hix Ht) as (Hf & Hi & _).
  cbv zeta in Hf, Hi. rewrite Hen in Hf, Hi.
  assert (is_Some (objects (doc w) !! e)) as He.
  { unfold get_type, get_self in Ht. destruct (objects (doc w) !! e); [eauto|done]. }
  unfold wf, wi, trigger. rewrite Hf, Hi.
  unfold on_actionInsertField_triggered, on_actionInsertIndex_triggered.
  rewrite Hedit. split.
  - destruct t; simpl; try done. by apply append_new_item.
  - destruct t; simpl; try done; by apply append_new_item.
Qed.

Lemma insert_keeps_structure_witness :
  let w := click 1%nat sample_window in
  inserted_under new_field 1%nat (doc w)
    (doc (trigger actionInsertField on_actionInsertField_triggered w)) ∧
  trigger actionInsertIndex on_actionInsertIndex_triggered w = w.
Proof.
  apply (insert_keeps_structure (click 1%nat sample_window) 1%nat
           InvisibleRoot 1%nat TickerItemT); vm_compute; reflexivity.
Defined.

(** *** Cloning *)

Lemma unchanged_below_refl n m : unchanged_below n m m.
Proof. by repeat split. Qed.

Lemma unchanged_below_trans n m1 m2 m3 :
  unchanged_below n m1 m2 → unchanged_below n m2 m3 → unchanged_below n m1 m3.
Proof.
  intros (Hr1 & Hl1 & Ho1) (Hr2 & Hl2 & Ho2). split; [congruence|].
  split; [lia|]. intros i Hi. by rewrite Ho2, Ho1.
Qed.

Lemma unchanged_below_le n n' m m' :
  (n ≤ n')%nat → unchanged_below n' m m' → unchanged_below n m m'.
Proof.
  intros Hle (Hr & Hl & Ho). split; [done|]. split; [done|].
  intros i Hi. apply Ho. lia.
Qed.

Lemma kept_trans t m1 m2 m3 : kept t m1 m2 → kept t m2 m3 → kept t m1 m3.
Proof.
  intros (o1 & o2 & H1 & H2 & Hs & Hp) (o2' & o3 & H2' & H3 & Hs' & Hp').
  simplify_eq. exists o1, o3. repeat split; congruence.
Qed.

Lemma kept_unchanged t m m' :
  (t < length (objects m))%nat → unchanged_below (S t) m m' → kept t m m'.
Proof.
  intros Ht (_ & _ & Ho). destruct (lookup_lt_is_Some_2 _ _ Ht) as [o Hobj].
  exists o, o. rewrite Ho by lia. done.
Qed.

(** Appending a row to [t] writes to [t] and to the appended item only. *)
Lemma appendRow_frame n t c m :
  (n ≤ t)%nat → (n ≤ c)%nat → t ≠ c → (t < length (objects m))%nat →
  unchanged_below n m (appendRow (Item t) c m) ∧
  kept t m (appendRow (Item t) c m) ∧
  length (objects (appendRow (Item t) c m)) = length (objects m).
Proof.
  intros Hnt Hnc Htc Ht.
  destruct (lookup_lt_is_Some_2 _ _ Ht) as [o Hobj].
  unfold appendRow, unchanged_below, kept. destruct (get_parent c m);
    unfold set_parent, set_rows, update_object; cbn [objects root_rows];
    (split; [|split; [|by rewrite ?length_alter]]).
  - split; [done|]. split; [by rewrite length_alter|].
    intros i Hi. rewrite list_lookup_alter_ne; [done|lia].
  - exists o. eexists. split; [done|].
    rewrite list_lookup_alter_eq, Hobj. simpl. done.
  - split; [done|]. split; [by rewrite !length_alter|].
    intros i Hi. rewrite !list_lookup_alter_ne; [done|lia..].
  - exists o. eexists. split; [done|].
    rewrite list_lookup_alter_ne by done.
    rewrite list_lookup_alter_eq, Hobj. simpl. done.
Qed.

Lemma foldM_rel {A S} (R : S → S → Prop) (P : S → Prop)
    (f : S → A → result S) l s s' :
  (∀ s, P s → R s s) → (∀ s1 s2 s3, R s1 s2 → R s2 s3 → R s1 s3) →
  (∀ s a s', P s → f s a = Ok s' → R s s' ∧ P s') →
  P s → foldM f l s = Ok s' → R s s' ∧ P s'.
Proof.
  intros Hrefl Htrans Hstep. revert s.
  induction l as [|a l IH]; intros s HP; simpl.
  - intros [= <-]. auto.
  - destruct (f s a) as [s1|] eqn:Hf; simpl; [|done]. intros Hfold.
    destruct (Hstep _ _ _ HP Hf) as [HR1 HP1].
    destruct (IH _ HP1 Hfold) as [HR2 HP2]. eauto.
Qed.

Lemma kept_refl t m : (t < length (objects m))%nat → kept t m m.
Proof.
  intros Ht. destruct (lookup_lt_is_Some_2 _ _ Ht) as [o Ho]. by exists o, o.
Qed.

Lemma alloc_frame s m :
  unchanged_below (length (objects m)) m (alloc s m).2 ∧
  length (objects (alloc s m).2) = S (length (objects m)).
Proof.
  split; [|simpl; rewrite length_app; simpl; lia].
  split; [done|]. split; [simpl; rewrite length_app; lia|].
  intros i Hi. by apply alloc_old.
Qed.

(** [clone] returns the next reference of the store, writes to new objects
    only, and leaves its result without parent, with the text and the
    class attributes of the source and with the flags and foreground of a
    new item; [deepClone] writes to new objects and to the rows of its
    target. *)
Lemma clone_deepClone_frame d :
  (∀ r m c m', clone d r m = Ok (c, m') →
     c = length (objects m) ∧ unchanged_below c m m' ∧
     ∃ o s, objects m' !! c = Some o ∧ parent o = None ∧
            get_self r m = Some s ∧ self o = new_item (text s) (cls s)) ∧
  (∀ src tgt m m', deepClone d src tgt m = Ok m' →
     (tgt < length (objects m))%nat →
     unchanged_below tgt m m' ∧ kept tgt m m').
Proof.
  induction d as [|d [IHc IHd]]; [by split|]. split.
  - intros r m c m'. cbn [clone].
    destruct (get_self r m) as [s|] eqn:Hs; [|done].
    destruct (alloc_frame (new_item (text s) (cls s)) m) as [Ha Hal].
    pose proof (alloc_new (new_item (text s) (cls s)) m) as Hnew.
    destruct (cls s) as [| |id|tn ps] eqn:Hcls; try done;
      cbn [alloc fst snd] in *.
    + destruct (foldM _ _ _) as [m2|] eqn:Hfold; [|done].
      cbn [mbind result_bind]. intros [= <- <-].
      apply (foldM_rel
               (λ a b, unchanged_below (length (objects m)) a b ∧
                       kept (length (objects m)) a b)
               (λ a, (length (objects m) < length (objects a))%nat))
        in Hfold as [[Hu Hk] _].
      * split; [done|]. split; [by eapply unchanged_below_trans|].
        destruct Hk as (o & o' & Ho & Ho' & Hself & Hpar).
        rewrite Hnew in Ho. injection Ho as <-.
        exists o', s. rewrite Hself, Hpar, Hcls. done.
      * intros a Ha'. split; [apply unchanged_below_refl|by apply kept_refl].
      * intros a1 a2 a3 [? ?] [? ?].
        split; [by eapply unchanged_below_trans|by eapply kept_trans].
      * intros a [ch|] a' Hlen; [|done].
        destruct (clone d ch a) as [[cl a1]|] eqn:Hcl; [|done].
        cbn [mbind result_bind]. intros [= <-].
        destruct (IHc _ _ _ _ Hcl) as (-> & Hu1 & o & _ & Ho & _).
        pose proof (lookup_lt_Some _ _ _ Ho) as Hlt1.
        destruct (appendRow_frame (length (objects m)) (length (objects m))
                    (length (objects a)) a1) as (Hu2 & Hk2 & Hl2); [lia..|].
        split; [split|lia].
        -- eapply unchanged_below_trans; [|exact Hu2].
           eapply unchanged_below_le; [|exact Hu1]. lia.
        -- eapply kept_trans; [|exact Hk2]. apply kept_unchanged; [done|].
           eapply unchanged_below_le; [|exact Hu1]. lia.
      * rewrite Hal. lia.
    + destruct (deepClone d r _ _) as [m2|] eqn:Hdeep; [|done].
      cbn [mbind result_bind]. intros [= <- <-].
      apply IHd in Hdeep as [Hu Hk]; [|rewrite Hal; lia].
      split; [done|]. split; [by eapply unchanged_below_trans|].
      destruct Hk as (o & o' & Ho & Ho' & Hself & Hpar).
      rewrite Hnew in Ho. injection Ho as <-.
      exists o', s. rewrite Hself, Hpar, Hcls. done.
  - intros src tgt m m'. cbn [deepClone]. intros Hfold Htgt.
    apply (foldM_rel (λ a b, unchanged_below tgt a b ∧ kept tgt a b)
             (λ a, (tgt < length (objects a))%nat))
      in Hfold as [HR _]; [done| | | |done].
    + intros a Ha'. split; [apply unchanged_below_refl|by apply kept_refl].
    + intros a1 a2 a3 [? ?] [? ?].
      split; [by eapply unchanged_below_trans|by eapply kept_trans].
    + intros a [ch|] a' Hlen; [|done].
      destruct (clone d ch a) as [[cl a1]|] eqn:Hcl; [|done].
      cbn [mbind result_bind]. intros Hdeep.
      destruct (IHc _ _ _ _ Hcl) as (-> & Hu1 & o & _ & Ho & _).
      pose proof (lookup_lt_Some _ _ _ Ho) as Hlt1.
      destruct (appendRow_frame tgt tgt (length (objects a)) a1)
        as (Hu2 & Hk2 & Hl2); [lia..|].
      apply IHd in Hdeep as [Hu3 Hk3]; [|lia].
      destruct Hu3 as (Hr3 & Hl3 & Ho3).
      split; [split|lia].
      * eapply unchanged_below_trans; [|split; [exact Hr3|split; [exact Hl3|]]].
        -- eapply unchanged_below_trans; [|exact Hu2].
           eapply unchanged_below_le; [|exact Hu1]. lia.
        -- intros i Hi. apply Ho3. lia.
      * apply (kept_trans _ _ (appendRow (Item tgt) (length (objects a)) a1)).
        -- eapply kept_trans; [|exact Hk2]. apply kept_unchanged; [done|].
           eapply unchanged_below_le; [|exact Hu1]. lia.
        -- apply kept_unchanged; [lia|].
           split; [done|]. split; [done|]. intros i Hi. apply Ho3. lia.
Qed.

Lemma modified_enableActions ix w : modified (enableActions ix w) = modified w.
Proof.
  unfold enableActions. destruct ix as [[h row]|]; [|done].
  by destruct (_ ≫= _) as [[item t]|].
Qed.



(** X11. Pasting a copy: the clip item stays in the clipboard and in its row, no
    item other than the target is written to, and the target gains exactly
    one row, the last, holding a new unmarked item with the text and the
    class attributes of the clip item. *)
Theorem paste_copy_appends_clone (limit : nat) (w : window) (src tgt c : ref)
    (s : SchemaItem) (m1 : model) :
  actionPaste (enabled w) = true →
  clipItem w = Some src →
  editItem w = Some tgt →
  get_self src (doc w) = Some s →
  cutSource s = false →
  (tgt < length (objects (doc w)))%nat →
  clone limit src (doc w) = Ok (c, m1) →
  let w' := on_actionPaste_triggered limit w in
  clipItem w' = Some src ∧ editItem w' = Some tgt ∧
  modified w' = S (modified w) ∧
  c = length (objects (doc w)) ∧
  root_rows (doc w') = root_rows (doc w) ∧
  (∀ i, (i < length (objects (doc w)))%nat → i ≠ tgt →
        objects (doc w') !! i = objects (doc w) !! i) ∧
  get_self tgt (doc w') = get_self tgt (doc w) ∧
  get_parent tgt (doc w') = get_parent tgt (doc w) ∧
  get_rows (Item tgt) (doc w') = get_rows (Item tgt) (doc w) ++ [Some c] ∧
  get_parent c (doc w') = Some (Item tgt) ∧
  get_self c (doc w') = Some (new_item (text s) (cls s)).
Proof.
  intros Hen Hclip Hedit Hs Hcut Htgt Hclone w'.
  destruct (proj1 (clone_deepClone_frame limit) _ _ _ _ Hclone)
    as (-> & (Hroot & Hlen & Hold) & o & s' & Ho & Hpar & Hs' & Hself).
  rewrite Hs in Hs'. injection Hs' as <-.
  set (c := length (objects (doc w))) in *.
  assert (tgt ≠ c) as Hne by lia.
  assert (get_parent c m1 = None) as Hpc by (unfold get_parent; by rewrite Ho).
  destruct (lookup_lt_is_Some_2 _ _ Htgt) as [ot Hot].
  assert (objects m1 !! tgt = Some ot) as Hot1 by (by rewrite Hold).
  assert (get_rows (Item tgt) m1 = get_rows (Item tgt) (doc w)) as Hrows.
  { unfold get_rows. by rewrite Hot1, Hot. }
  assert (doc w' =
          set_parent c (Some (Item tgt))
            (set_rows (Item tgt) (get_rows (Item tgt) m1 ++ [Some c])
               (set_rows (Item tgt) (get_rows (Item tgt) m1 ++ [None]) m1)) ∧
          clipItem w' = Some src ∧ editItem w' = Some tgt ∧
          modified w' = S (modified w)) as (Hdoc & Hc' & He' & Hm').
  { unfold w', on_actionPaste_triggered.
    rewrite Hen, Hclip, Hedit, Hs, Hclone. cbn [negb from_option].
    rewrite Hcut. cbn [emit_modified doc clipItem editItem modified].
    rewrite doc_enableActions, clipItem_enableActions, editItem_enableActions,
      modified_enableActions.
    cbn [with_doc doc clipItem editItem modified].
    rewrite setChild_append by (done || congruence). done. }
  split; [done|]. split; [done|]. split; [done|]. split; [done|].
  rewrite Hdoc. clear Hdoc Hc' He' Hm' w'.
  split; [done|]. split; [|split; [|split; [|split; [|split]]]].
  - intros i Hi Hit. cbn [set_parent set_rows update_object objects].
    rewrite !list_lookup_alter_ne by lia. by apply Hold.
  - by rewrite get_self_set_parent, !get_self_set_rows; unfold get_self;
      rewrite Hot1, Hot.
  - rewrite get_parent_set_parent_ne, !get_parent_set_rows by done.
    unfold get_parent. by rewrite Hot1, Hot.
  - rewrite get_rows_set_parent, get_rows_set_rows, Hrows; [done|].
    intros r [= <-]. apply objects_set_rows_is_Some. eauto.
  - rewrite get_parent_set_parent; [done|].
    apply objects_set_rows_is_Some, objects_set_rows_is_Some. eauto.
  - rewrite get_self_set_parent, !get_self_set_rows.
    unfold get_self. by rewrite Ho, <- Hself.
Qed.

Lemma paste_copy_appends_clone_witness :
  let w := copied_X_selected_bid in
  let w' := on_actionPaste_triggered 10 w in
  clipItem w' = Some 4%nat ∧ editItem w' = Some 2%nat ∧
  modified w' = S (modified w) ∧
  8%nat = length (objects (doc w)) ∧
  root_rows (doc w') = root_rows (doc w) ∧
  (∀ i, (i < length (objects (doc w)))%nat → i ≠ 2%nat →
        objects (doc w') !! i = objects (doc w) !! i) ∧
  get_self 2%nat (doc w') = get_self 2%nat (doc w) ∧
  get_parent 2%nat (doc w') = get_parent 2%nat (doc w) ∧
  get_rows (Item 2%nat) (doc w') = get_rows (Item 2%nat) (doc w) ++ [Some 8%nat] ∧
  get_parent 8%nat (doc w') = Some (Item 2%nat) ∧
  get_self 8%nat (doc w') =
    Some (new_item "X" (IndexItem "SMA" [("periods", PyInt 9)])).
Proof.
  apply (paste_copy_appends_clone 10 copied_X_selected_bid 4%nat 2%nat 8%nat
           (setCopy (new_item "X" (IndexItem "SMA" [("periods", PyInt 9)])))
           (match clone 10 4%nat (doc copied_X_selected_bid) with
            | Ok (_, m') => m'
            | Raise _ => doc copied_X_selected_bid
            end));
    vm_compute; solve [reflexivity | lia].
Defined.

(** *** Moving there and back *)





Lemma indexName_enableActions ix w :
  indexName (enableActions ix w) = indexName w.
Proof.
  unfold enableActions. destruct ix as [[h row]|]; [|done].
  by destruct (_ ≫= _) as [[item t]|].
Qed.





(** *** Pasting a cut item under its own child *)

Lemma root_cycle a b m :
  public_parent a m = Some b → public_parent b m = Some a →
  ∀ k, root k a m = None ∧ root k b m = None.
Proof.
  intros Ha Hb. induction k as [|k [IHa IHb]]; simpl; rewrite Ha, Hb; done.
Qed.

(** The parents after the paste of a cut item. *)
Lemma paste_cut_parents limit w src tgt sp i s :
  actionPaste (enabled w) = true →
  clipItem w = Some src →
  editItem w = Some tgt →
  get_self src (doc w) = Some s →
  cutSource s = true →
  indexFromItem src (doc w) = Some (Item sp, Z.of_nat i) →
  tgt ≠ src →
  let w' := on_actionPaste_triggered limit w in
  get_parent src (doc w') = Some (Item tgt) ∧
  (∀ c, c ≠ src → get_parent c (doc w') = get_parent c (doc w)) ∧
  editItem w' = Some tgt ∧ indexName w' = indexName w ∧
  get_self src (doc w') = Some (resetForeground s) ∧
  (∀ c, c ≠ src → get_self c (doc w') = get_self c (doc w)).
Proof.
  intros Hen Hclip Hedit Hs Hcut Hix Hts w'.
  destruct (indexFromItem_Some _ _ _ _ Hix) as (Hp & i' & Hi' & Hi).
  apply Nat2Z.inj in Hi'. subst i'.
  pose proof (get_parent_is_Some _ _ _ Hp) as Hso.
  set (m := doc w) in *.
  set (m1 := set_parent src None
               (set_rows (Item sp) (<[i:=None]> (get_rows (Item sp) m)) m)).
  assert (get_parent src m1 = None) as Hp1.
  { unfold m1. apply get_parent_set_parent. by apply objects_set_rows_is_Some. }
  set (lt := get_rows (Item tgt) m1).
  set (m2 := set_parent src (Some (Item tgt))
               (set_rows (Item tgt) (lt ++ [Some src])
                  (set_rows (Item tgt) (lt ++ [None]) m1))).
  set (m3 := removeRow (Item sp) (Z.of_nat i) (update_self src resetForeground m2)).
  assert (w' = emit_modified
                 (enableActions (indexFromItem tgt m3)
                    (with_clipItem None (with_doc m3 w)))) as ->.
  { unfold w', on_actionPaste_triggered.
    rewrite Hen, Hclip, Hedit. fold m. rewrite Hs, Hix. cbn [negb from_option snd].
    rewrite Hcut. unfold public_parent. rewrite Hp.
    rewrite (takeChild_Some _ _ _ _ Hi). cbn [snd]. fold m1.
    rewrite setChild_append by (done || congruence). done. }
  cbn [emit_modified doc editItem indexName].
  rewrite doc_enableActions, editItem_enableActions, indexName_enableActions.
  cbn [with_clipItem with_doc doc editItem indexName].
  assert (∀ c, get_parent c m3 = get_parent c m2) as H32.
  { intros c. unfold m3, removeRow. case_decide.
    - by rewrite get_parent_set_rows, get_parent_update_self.
    - by rewrite get_parent_update_self. }
  assert (∀ c, get_self c m3 =
               if decide (c = src) then resetForeground <$> get_self c m
               else get_self c m) as Hself.
  { intros c.
    assert (get_self c (update_self src resetForeground m2) =
            if decide (c = src) then resetForeground <$> get_self c m
            else get_self c m) as Hu.
    { rewrite get_self_update_self. unfold m2.
      rewrite get_self_set_parent, !get_self_set_rows. unfold m1.
      by rewrite get_self_set_parent, get_self_set_rows. }
    unfold m3, removeRow. rewrite <- Hu.
    destruct (decide (0 ≤ Z.of_nat i < _)); [by rewrite get_self_set_rows|done]. }
  split; [|split; [|split; [done|split; [done|split]]]].
  - rewrite H32. unfold m2. apply get_parent_set_parent.
    apply objects_set_rows_is_Some, objects_set_rows_is_Some.
    unfold m1. by apply objects_set_parent_is_Some, objects_set_rows_is_Some.
  - intros c Hc. rewrite H32. unfold m2.
    rewrite get_parent_set_parent_ne, !get_parent_set_rows by done.
    unfold m1. by rewrite get_parent_set_parent_ne, get_parent_set_rows.
  - by rewrite Hself, decide_True, Hs.
  - intros c Hc. by rewrite Hself, decide_False.
Qed.

(** X13. Paste is offered on a child of the cut item, and taken there it ties
    the two into a loop: each becomes the parent of the other, so the walk
    of [root] from either never ends, and neither does the handler of the
    index name editor, which starts with that walk, on the window the paste
    leaves. *)
Theorem paste_cut_under_own_child (limit : nat) (w : window)
    (src tgt sp : ref) (i : nat) (s : SchemaItem) :
  actionPaste (enabled w) = true →
  clipItem w = Some src →
  editItem w = Some tgt →
  get_self src (doc w) = Some s →
  cutSource s = true →
  indexFromItem src (doc w) = Some (Item sp, Z.of_nat i) →
  get_parent tgt (doc w) = Some (Item src) →
  tgt ≠ src →
  let w' := on_actionPaste_triggered limit w in
  public_parent src (doc w') = Some tgt ∧
  public_parent tgt (doc w') = Some src ∧
  (∀ k, root k src (doc w') = None ∧ root k tgt (doc w') = None) ∧
  (∀ k txt, on_indexName_textChanged k txt w' = None).
Proof.
  intros Hen Hclip Hedit Hs Hcut Hix Hpt Hts w'.
  destruct (paste_cut_parents limit w src tgt sp i s Hen Hclip Hedit Hs Hcut
              Hix Hts) as (Hps & Hpo & Hedit' & _).
  fold w' in Hps, Hpo, Hedit'.
  assert (public_parent src (doc w') = Some tgt) as Hsrc
    by (unfold public_parent; by rewrite Hps).
  assert (public_parent tgt (doc w') = Some src) as Htgt
    by (unfold public_parent; by rewrite Hpo, Hpt).
  pose proof (root_cycle src tgt (doc w') Hsrc Htgt) as Hloop.
  split; [done|]. split; [done|]. split; [done|].
  intros k txt. unfold on_indexName_textChanged, updateLines.
  rewrite Hedit'. by rewrite (proj2 (Hloop k)).
Qed.

Lemma paste_cut_under_own_child_witness :
  let w := click 5%nat (on_actionCut_triggered (click 4%nat sample_window)) in
  let w' := on_actionPaste_triggered 10 w in
  public_parent 4%nat (doc w') = Some 5%nat ∧
  public_parent 5%nat (doc w') = Some 4%nat ∧
  (∀ k, root k 4%nat (doc w') = None ∧ root k 5%nat (doc w') = None) ∧
  (∀ k txt, on_indexName_textChanged k txt w' = None).
Proof.
  apply (paste_cut_under_own_child 10
           (click 5%nat (on_actionCut_triggered (click 4%nat sample_window)))
           4%nat 5%nat 2%nat 0%nat
           (setCut (new_item "X" (IndexItem "SMA" [("periods", PyInt 9)]))));
    vm_compute; solve [reflexivity | done].
Defined.

(** *** The message types of a callable *)

Lemma list_remove_spec key l :
  (length (filter (λ x, py_eq_str x key = true) l) ≤ 1)%nat →
  existsb (λ x, py_eq_str x key) (list_remove key l) = false ∧
  filter (λ x, py_eq_str x key = false) (list_remove key l) =
    filter (λ x, py_eq_str x key = false) l.
Proof.
  induction l as [|x l IH]; [done|]. simpl.
  destruct (py_eq_str x key) eqn:Hx.
  - rewrite filter_cons_True by done. rewrite filter_cons_False by congruence.
    simpl. intros Hlen. split; [|done].
    apply not_true_is_false. intros [y [Hin Hy]]%existsb_exists.
    assert (y ∈ filter (λ x, py_eq_str x key = true) l) as Hf
      by (apply list_elem_of_filter; split; [done|by apply list_elem_of_In]).
    destruct (filter _ l); [by apply elem_of_nil in Hf|simpl in Hlen; lia].
  - rewrite filter_cons_False by congruence. rewrite filter_cons_True by done.
    intros Hlen. destruct (IH Hlen) as [IH1 IH2].
    simpl. rewrite Hx, IH1. split; [done|].
    rewrite !filter_cons_True by done. by rewrite IH2.
Qed.

Lemma get_messageTypes_with item s c types m :
  get_self item m = Some s → cls s = CallableItem c →
  get_self item (update_self item (with_messageTypes types) m) =
    Some (with_messageTypes types s) ∧
  get_messageTypes item (update_self item (with_messageTypes types) m) =
    Some types.
Proof.
  intros Hs Hc. unfold get_messageTypes.
  rewrite get_self_update_self, decide_True, Hs by done. simpl.
  unfold with_messageTypes. by rewrite Hc.
Qed.

(** X14. A check box of the message type list, on a callable whose list names
    the type at most once: afterwards the list names the type exactly when
    the box is checked, the other entries are the same in the same order,
    the modification signal has not been emitted, and the same event once
    more changes nothing. *)
Theorem messageTypes_follow_checkbox (checked : bool) (key : string)
    (w : window) (item : ref) (s : SchemaItem) (c : CallableAttrs)
    (l : list pyobj) :
  editItem w = Some item →
  get_self item (doc w) = Some s →
  cls s = CallableItem c →
  messageTypes c = PyList l →
  (length (filter (λ x, py_eq_str x key = true) l) ≤ 1)%nat →
  ∃ w' l',
    on_callableMessageTypes_itemChanged checked key w = Ok w' ∧
    get_messageTypes item (doc w') = Some (PyList l') ∧
    existsb (λ x, py_eq_str x key) l' = checked ∧
    filter (λ x, py_eq_str x key = false) l' =
      filter (λ x, py_eq_str x key = false) l ∧
    modified w' = modified w ∧
    on_callableMessageTypes_itemChanged checked key w' = Ok w'.
Proof.
  intros Hedit Hs Hc Hl Hlen.
  assert (get_messageTypes item (doc w) = Some (PyList l)) as Hget
    by (unfold get_messageTypes; by rewrite Hs; simpl; rewrite Hc, Hl).
  assert (py_eq_str (PyStr key) key = true) as Hkey by apply String.eqb_refl.
  unfold on_callableMessageTypes_itemChanged at 1. rewrite Hedit, Hget.
  cbn [py_contains mbind result_bind].
  destruct checked, (existsb _ l) eqn:Hin; cbn [andb negb py_append py_remove
    mbind result_bind].
  - exists w, l. unfold on_callableMessageTypes_itemChanged.
    rewrite Hedit, Hget. cbn [py_contains mbind result_bind]. by rewrite Hin.
  - destruct (get_messageTypes_with item s c (PyList (l ++ [PyStr key])) (doc w)
                Hs Hc) as [_ Hget'].
    assert (existsb (λ x, py_eq_str x key) (l ++ [PyStr key]) = true) as Hin'.
    { rewrite existsb_app. cbn [existsb]. rewrite Hkey. by rewrite orb_true_r. }
    eexists _, (l ++ [PyStr key]). split; [done|]. cbn [with_doc doc modified].
    split; [done|]. split; [done|]. split.
    { rewrite filter_app, filter_cons_False, filter_nil, app_nil_r; [done|].
      by rewrite Hkey. }
    split; [done|]. unfold on_callableMessageTypes_itemChanged.
    cbn [with_doc doc editItem]. rewrite Hedit, Hget'.
    cbn [py_contains mbind result_bind]. by rewrite Hin'.
  - destruct (get_messageTypes_with item s c (PyList (list_remove key l)) (doc w)
                Hs Hc) as [_ Hget'].
    destruct (list_remove_spec key l Hlen) as [Hout Hsame].
    eexists _, (list_remove key l). split; [done|]. cbn [with_doc doc modified].
    split; [done|]. split; [done|]. split; [done|].
    split; [done|]. unfold on_callableMessageTypes_itemChanged.
    cbn [with_doc doc editItem]. rewrite Hedit, Hget'.
    cbn [py_contains mbind result_bind]. by rewrite Hout.
  - exists w, l. unfold on_callableMessageTypes_itemChanged.
    rewrite Hedit, Hget. cbn [py_contains mbind result_bind]. by rewrite Hin.
Qed.

Lemma messageTypes_follow_checkbox_witness :
  let w := click 0%nat sample_window in
  ∃ w' l',
    on_callableMessageTypes_itemChanged true "TickPrice" w = Ok w' ∧
    get_messageTypes 0%nat (doc w') = Some (PyList l') ∧
    existsb (λ x, py_eq_str x "TickPrice") l' = true ∧
    filter (λ x, py_eq_str x "TickPrice" = false) l' =
      filter (λ x, py_eq_str x "TickPrice" = false) [] ∧
    modified w' = modified w ∧
    on_callableMessageTypes_itemChanged true "TickPrice" w' = Ok w'.
Proof.
  apply (messageTypes_follow_checkbox true "TickPrice"
           (click 0%nat sample_window) 0%nat sample_callable
           (MkCallable "job" (PyInt 5) (PyStr "run.py") (PyStr "")
              (PyStr "thread") (PyStr "script") (PyList [])) []);
    vm_compute; solve [reflexivity | lia].
Defined.

(** *** When paste is offered *)

(** X15. Paste is enabled for an item exactly when there is a clip item of a
    class that the item takes (a field on a ticker, an index on a field or
    on an index) and the item is not the cut item itself. A copied item is
    a legal target for its own copy; a callable is never one. *)
Theorem paste_offered_when (w : window) (item : ref) (h : holder) (i : nat)
    (t : ItemType) :
  indexFromItem item (doc w) = Some (h, Z.of_nat i) →
  get_type item (doc w) = Some t →
  actionPaste (enabled (enableActions (Some (h, Z.of_nat i)) w)) = true ↔
  ∃ clip sc,
    clipItem w = Some clip ∧ get_self clip (doc w) = Some sc ∧
    (t, type_of sc) ∈ [(TickerItemT, FieldItemT); (FieldItemT, IndexItemT);
                       (IndexItemT, IndexItemT)] ∧
    ¬ (cutSource sc = true ∧ clip = item).
Proof.
  intros Hix Ht. destruct (indexFromItem_Some _ _ _ _ Hix) as (Hp & i' & Hi' & Hi).
  apply Nat2Z.inj in Hi'. subst i'.
  unfold enableActions. cbn [itemFromIndex mbind option_bind].
  rewrite child_of_nat, Hi. cbn [mjoin option_join mbind option_bind].
  rewrite Ht. cbn [fmap option_fmap option_map with_enabled enabled actionPaste].
  destruct (clipItem w) as [clip|] eqn:Hclip; cbn [mbind option_bind from_option].
  - unfold get_type. destruct (get_self clip (doc w)) as [sc|] eqn:Hsc;
      cbn [fmap option_fmap option_map from_option].
    + rewrite bool_decide_eq_true_2 by eauto. cbn [andb].
      assert (canPaste t (Some (type_of sc)) = true ↔
              (t, type_of sc) ∈ [(TickerItemT, FieldItemT);
                                 (FieldItemT, IndexItemT);
                                 (IndexItemT, IndexItemT)]) as Hcan.
      { rewrite <- (bool_decide_eq_true (_ ∈ _)).
        by destruct t, (type_of sc). }
      split.
      * intros Hpaste. exists clip, sc. split; [done|]. split; [done|].
        destruct (cutSource sc); cbn [andb] in Hpaste.
        -- case_bool_decide as Hci; [done|]. split; [by apply Hcan|].
           intros [_ ->]. done.
        -- split; [by apply Hcan|]. by intros [? _].
      * intros (? & ? & [= <-] & Hsc' & Hin & Hnot).
        rewrite Hsc in Hsc'. injection Hsc' as <-.
        destruct (cutSource sc); cbn [andb].
        -- case_bool_decide as Hci; [|by apply Hcan].
           destruct Hnot. split; [done|congruence].
        -- by apply Hcan.
    + rewrite andb_false_r. cbn [andb]. split.
      * by destruct t.
      * intros (? & ? & [= <-] & Hsc' & _). by rewrite Hsc in Hsc'.
  - cbn [andb]. split.
    + by destruct t.
    + by intros (? & ? & ? & _).
Qed.

Lemma paste_offered_when_witness :
  actionPaste (enabled (enableActions (Some (Item 2%nat, Z.of_nat 0))
                          (on_actionCopy_triggered (click 4%nat sample_window))))
    = true ↔
  ∃ clip sc,
    clipItem (on_actionCopy_triggered (click 4%nat sample_window)) = Some clip ∧
    get_self clip (doc (on_actionCopy_triggered (click 4%nat sample_window)))
      = Some sc ∧
    (IndexItemT, type_of sc) ∈ [(TickerItemT, FieldItemT);
                                (FieldItemT, IndexItemT);
                                (IndexItemT, IndexItemT)] ∧
    ¬ (cutSource sc = true ∧ clip = 4%nat).
Proof.
  apply (paste_offered_when (on_actionCopy_triggered (click 4%nat sample_window))
           4%nat (Item 2%nat) 0%nat IndexItemT); vm_compute; reflexivity.
Defined.

(** *** What paste puts under the target *)





(** *** The descendants of an item *)

Lemma tree_of_self d r m t :
  tree_of d r m = Some t → get_self r m = Some (Schema.self_of t).
Proof.
  destruct d as [|d]; [done|]. cbn [tree_of]. unfold get_self.
  destruct (objects m !! r) as [o|]; [|done]. cbn [mbind option_bind].
  destruct (mapM _ (rows o)) as [rs|]; [|done]. by intros [= <-].
Qed.

(** X17. On an item whose rows all hold items, down to the leaves,
    [children] returns, and it yields the items below it in document
    order: the item of each row, followed by that item's own children. *)
Theorem children_in_document_order (d : nat) (r : ref) (m : model)
    (t : Schema.item) :
  tree_of d r m = Some t →
  ∃ cs, children d (Item r) m = Ok cs ∧
        Forall2 (λ c s, get_self c m = Some s) cs (Schema.descendants t).
Proof.
  revert r t. induction d as [|d IH]; intros r t; [done|].
  cbn [tree_of children]. unfold get_rows.
  destruct (objects m !! r) as [o|]; [|done]. cbn [mbind option_bind from_option].
  destruct (mapM _ (rows o)) as [rs|] eqn:Hrs; [|done]. intros [= <-].
  apply mapM_Some_1 in Hrs. cbn [Schema.descendants].
  match goal with |- context [foldM ?f _ _] => set (F := f) end.
  assert (∀ acc, ∃ cs,
            foldM F (rows o) acc = Ok (acc ++ cs) ∧
            Forall2 (λ c s, get_self c m = Some s) cs
              (List.flat_map (λ r, Schema.self_of r :: Schema.descendants r) rs))
    as Hloop.
  { induction Hrs as [|row tr rows' rs' Hrow _ IHrs]; intros acc.
    - exists []. simpl. rewrite app_nil_r. split; [done|constructor].
    - destruct row as [c|]; [|done]. cbn [mbind option_bind] in Hrow.
      destruct (IH c tr Hrow) as (csc & Hc & Hf).
      destruct (IHrs (acc ++ c :: csc)) as (cs & Hcs & Hfs).
      exists (c :: csc ++ cs). split.
      + cbn [foldM].
        change (F acc (Some c))
          with (children d (Item c) m ≫= λ cs, Ok (acc ++ c :: cs)).
        rewrite Hc. cbn [mbind result_bind].
        rewrite Hcs. f_equal. by rewrite <- app_assoc.
      + cbn [List.flat_map]. constructor; [by eapply tree_of_self|].
        by apply Forall2_app. }
  destruct (Hloop []) as (cs & Hcs & Hf). by exists cs.
Qed.

Lemma children_in_document_order_witness :
  ∃ cs, children 5 (Item 1%nat) sample_doc = Ok cs ∧
        Forall2 (λ c s, get_self c sample_doc = Some s) cs
          (Schema.descendants
             (default (Schema.Node sample_ticker [])
                (tree_of 5 1%nat sample_doc))).
Proof.
  apply (children_in_document_order 5 1%nat sample_doc). vm_compute. reflexivity.
Defined.

(** *** Selecting an item *)



(** *** The root of an item *)

(** X9. The loop of [root] ends on an item without parent item, which is its
    own root, and more steps than it needs do not change its answer. *)
Theorem root_is_top (k : nat) (r rt : ref) (m : model) :
  root k r m = Some rt →
  public_parent rt m = None ∧
  root 0 rt m = Some rt ∧
  ∀ k', (k ≤ k')%nat → root k' r m = Some rt.
Proof.
  intros Hroot.
  assert (public_parent rt m = None) as Htop.
  { revert r Hroot. induction k as [|k IH]; intros r; simpl;
      destruct (public_parent r m) as [p|] eqn:Hp; try done.
    - by intros [= <-].
    - apply IH.
    - by intros [= <-]. }
  split; [done|]. split; [simpl; by rewrite Htop|].
  intros k' Hk. by eapply root_mono.
Qed.

Lemma root_is_top_witness :
  public_parent 1%nat sample_doc = None ∧
  root 0 1%nat sample_doc = Some 1%nat ∧
  ∀ k', (4 ≤ k')%nat → root k' 6%nat sample_doc = Some 1%nat.
Proof. apply (root_is_top 4 6%nat 1%nat sample_doc). reflexivity. Defined.

End DesignerLaws.
